(** * LumixEngine: the engine facade (src/engine/engine.cpp)

    A shallow embedding of [Lumix::EngineImpl]: the universe / scene
    lifecycle, the per-frame update with its two timing regimes, and the
    versioned binary serialization codec.

    The facade owns a handful of fields and otherwise talks to external
    collaborators (plugins, scenes, the plugin manager, the input system,
    the file system, the log) through virtual calls.  The fields are a
    record; the calls made on collaborators are recorded, in program
    order, as a list of events; the few values collaborators hand back
    (a created scene, a timer reading, serialized bytes) are carried by
    the objects that produce them. *)

From Stdlib Require Import String Strings.Byte.
From Stdlib Require Import ZArith List Bool Lia Floats.SpecFloat.
From Stdlib Require Import Sorting.Permutation.
Import ListNotations.
Local Open Scope Z_scope.

(** ** C++ [float]: IEEE-754 binary32, round to nearest even *)

Module Float32.

Definition float : Type := spec_float.

Definition prec : Z := 24.
Definition emax : Z := 128.

(** Conversion of an integer constant ([0], [30.0f], [-1]). *)
Definition of_int (z : Z) : float := binary_normalize prec emax z 0 false.

Definition mul : float -> float -> float := SFmul prec emax.
Definition div : float -> float -> float := SFdiv prec emax.

(** [x >= y], [x < y] and [x == y]; all three are false on a NaN. *)
Definition ge (x y : float) : bool := SFleb y x.
Definition lt (x y : float) : bool := SFltb x y.
Definition eqb (x y : float) : bool := SFeqb x y.

(** A decimal literal [n/d] such as [0.1f]: the correctly rounded quotient
    of two exactly representable integers. *)
Definition literal (n d : Z) : float := div (of_int n) (of_int d).

Definition zero : float := of_int 0.
Definition one : float := of_int 1.

End Float32.

Abbreviation float := Float32.float.

(** ** Pointers and the allocator *)

(** A non-null address.  A nullable C++ pointer is an [option]. *)
Definition addr : Type := positive.

(** Modelled from the spec: [IAllocator] (core/lumix.h) is declared outside
    this file.  Section 4.2 has the facade allocate a universe and a
    hierarchy; [newObject] hands out a fresh, non-null object each time. *)
Record IAllocator : Type := { next_free : addr }.

(** ** Collaborator objects *)

(** Modelled from the spec: [IScene] is declared outside this file.
    Section 6 gives it a get-owning-plugin accessor; a scene pointer is the
    scene object together with the plugin its [getPlugin()] reports. *)
Record IScene : Type := {
  scene_addr : addr;
  getPlugin : addr
}.

(** Modelled from the spec: [IPlugin] is declared outside this file.
    Section 6: create-scene(universe) yields a scene or none, get-name()
    yields a string; a plugin pointer has an identity. *)
Record IPlugin : Type := {
  plugin_addr : addr;
  getName : string;
  createScene : addr -> option IScene
}.

(** Modelled from the spec: [PluginManager] (engine/plugin_manager.h) is
    declared outside this file.  Section 6: list-plugins() is ordered, and
    add(plugin) registers one more. *)
Record PluginManager : Type := { getPlugins : list IPlugin }.

Definition addPlugin (p : IPlugin) (pm : PluginManager) : PluginManager :=
  {| getPlugins := getPlugins pm ++ [p] |}.

(** Modelled from the spec: [Timer] (core/timer.h) is declared outside
    this file.  Section 3: tick() returns the elapsed time since the
    previous tick and resets the baseline.  What the clock will say is the
    environment's business: the [n]-th call of [tick()] on a timer returns
    [elapsed_at n]. *)
Record Timer : Type := {
  elapsed_at : nat -> float;
  tick_count : nat
}.

Definition Timer_tick (t : Timer) : float * Timer :=
  (elapsed_at t (tick_count t),
   {| elapsed_at := elapsed_at t; tick_count := S (tick_count t) |}).

(** Everything [serialize] / [deserialize] is forwarded to. *)
Inductive Object : Type :=
| ObjPathManager
| ObjUniverse (u : addr)
| ObjHierarchy (h : addr)
| ObjRenderer (r : addr)
| ObjPluginManager
| ObjScene (s : IScene).

(** ** Calls made on collaborators *)

Inductive Event : Type :=
| EvCreateScene (plugin : addr) (universe : addr) (result : option IScene)
| EvDestroyScene (plugin : addr) (scene : IScene)
| EvHierarchyCreate (universe : addr) (hierarchy : addr)
| EvHierarchyDestroy (hierarchy : option addr)
| EvDeleteUniverse (universe : addr)
| EvSceneUpdate (scene : IScene) (dt : float)
| EvPluginManagerUpdate (dt : float)
| EvInputSystemUpdate (dt : float)
| EvUpdateAsyncTransactions
| EvSerialize (o : Object)
| EvDeserialize (o : Object)
| EvLogError (system message : string).

(** ** The facade's own state *)

Record EngineImpl : Type := {
  m_allocator : IAllocator;
  m_renderer : addr;
  m_plugin_manager : PluginManager;
  m_universe : option addr;
  m_hierarchy : option addr;
  m_scenes : list IScene;
  m_timer : Timer;
  m_fps_timer : Timer;
  m_fps_frame : Z;
  m_fps : float;
  m_last_time_delta : float
}.

Definition set_allocator (a : IAllocator) (e : EngineImpl) : EngineImpl :=
  {| m_allocator := a; m_renderer := m_renderer e;
     m_plugin_manager := m_plugin_manager e; m_universe := m_universe e;
     m_hierarchy := m_hierarchy e; m_scenes := m_scenes e;
     m_timer := m_timer e; m_fps_timer := m_fps_timer e;
     m_fps_frame := m_fps_frame e; m_fps := m_fps e;
     m_last_time_delta := m_last_time_delta e |}.

Definition set_plugin_manager (pm : PluginManager) (e : EngineImpl) : EngineImpl :=
  {| m_allocator := m_allocator e; m_renderer := m_renderer e;
     m_plugin_manager := pm; m_universe := m_universe e;
     m_hierarchy := m_hierarchy e; m_scenes := m_scenes e;
     m_timer := m_timer e; m_fps_timer := m_fps_timer e;
     m_fps_frame := m_fps_frame e; m_fps := m_fps e;
     m_last_time_delta := m_last_time_delta e |}.

Definition set_universe (u : option addr) (e : EngineImpl) : EngineImpl :=
  {| m_allocator := m_allocator e; m_renderer := m_renderer e;
     m_plugin_manager := m_plugin_manager e; m_universe := u;
     m_hierarchy := m_hierarchy e; m_scenes := m_scenes e;
     m_timer := m_timer e; m_fps_timer := m_fps_timer e;
     m_fps_frame := m_fps_frame e; m_fps := m_fps e;
     m_last_time_delta := m_last_time_delta e |}.

Definition set_hierarchy (h : option addr) (e : EngineImpl) : EngineImpl :=
  {| m_allocator := m_allocator e; m_renderer := m_renderer e;
     m_plugin_manager := m_plugin_manager e; m_universe := m_universe e;
     m_hierarchy := h; m_scenes := m_scenes e;
     m_timer := m_timer e; m_fps_timer := m_fps_timer e;
     m_fps_frame := m_fps_frame e; m_fps := m_fps e;
     m_last_time_delta := m_last_time_delta e |}.

Definition set_scenes (l : list IScene) (e : EngineImpl) : EngineImpl :=
  {| m_allocator := m_allocator e; m_renderer := m_renderer e;
     m_plugin_manager := m_plugin_manager e; m_universe := m_universe e;
     m_hierarchy := m_hierarchy e; m_scenes := l;
     m_timer := m_timer e; m_fps_timer := m_fps_timer e;
     m_fps_frame := m_fps_frame e; m_fps := m_fps e;
     m_last_time_delta := m_last_time_delta e |}.

Definition set_timer (t : Timer) (e : EngineImpl) : EngineImpl :=
  {| m_allocator := m_allocator e; m_renderer := m_renderer e;
     m_plugin_manager := m_plugin_manager e; m_universe := m_universe e;
     m_hierarchy := m_hierarchy e; m_scenes := m_scenes e;
     m_timer := t; m_fps_timer := m_fps_timer e;
     m_fps_frame := m_fps_frame e; m_fps := m_fps e;
     m_last_time_delta := m_last_time_delta e |}.

Definition set_fps_timer (t : Timer) (e : EngineImpl) : EngineImpl :=
  {| m_allocator := m_allocator e; m_renderer := m_renderer e;
     m_plugin_manager := m_plugin_manager e; m_universe := m_universe e;
     m_hierarchy := m_hierarchy e; m_scenes := m_scenes e;
     m_timer := m_timer e; m_fps_timer := t;
     m_fps_frame := m_fps_frame e; m_fps := m_fps e;
     m_last_time_delta := m_last_time_delta e |}.

Definition set_fps_frame (n : Z) (e : EngineImpl) : EngineImpl :=
  {| m_allocator := m_allocator e; m_renderer := m_renderer e;
     m_plugin_manager := m_plugin_manager e; m_universe := m_universe e;
     m_hierarchy := m_hierarchy e; m_scenes := m_scenes e;
     m_timer := m_timer e; m_fps_timer := m_fps_timer e;
     m_fps_frame := n; m_fps := m_fps e;
     m_last_time_delta := m_last_time_delta e |}.

Definition set_fps (f : float) (e : EngineImpl) : EngineImpl :=
  {| m_allocator := m_allocator e; m_renderer := m_renderer e;
     m_plugin_manager := m_plugin_manager e; m_universe := m_universe e;
     m_hierarchy := m_hierarchy e; m_scenes := m_scenes e;
     m_timer := m_timer e; m_fps_timer := m_fps_timer e;
     m_fps_frame := m_fps_frame e; m_fps := f;
     m_last_time_delta := m_last_time_delta e |}.

Definition set_last_time_delta (f : float) (e : EngineImpl) : EngineImpl :=
  {| m_allocator := m_allocator e; m_renderer := m_renderer e;
     m_plugin_manager := m_plugin_manager e; m_universe := m_universe e;
     m_hierarchy := m_hierarchy e; m_scenes := m_scenes e;
     m_timer := m_timer e; m_fps_timer := m_fps_timer e;
     m_fps_frame := m_fps_frame e; m_fps := m_fps e;
     m_last_time_delta := f |}.

(** ** A monad for the member functions

    A member function reads and writes the fields, makes calls on
    collaborators, and either returns or hits one of the faults below. *)

Inductive Fault : Type :=
| AssertionFailed
| NullDereference
| IndexOutOfRange.

Inductive Result (A : Type) : Type :=
| Ok (a : A) (e : EngineImpl) (calls : list Event)
| Crash (f : Fault).

Arguments Ok {A} a e calls.
Arguments Crash {A} f.

Definition M (A : Type) : Type := EngineImpl -> Result A.

Definition ret {A} (a : A) : M A := fun e => Ok a e [].

Definition bind {A B} (m : M A) (k : A -> M B) : M B :=
  fun e =>
    match m e with
    | Ok a e1 c1 =>
        match k a e1 with
        | Ok b e2 c2 => Ok b e2 (c1 ++ c2)
        | Crash f => Crash f
        end
    | Crash f => Crash f
    end.

Declare Scope engine_scope.
Delimit Scope engine_scope with engine.
Notation "x <- m ;; k" := (bind m (fun x => k))
  (at level 100, m at next level, right associativity) : engine_scope.
Notation "m ;; k" := (bind m (fun _ => k))
  (at level 100, right associativity) : engine_scope.
Local Open Scope engine_scope.

Definition gets {A} (f : EngineImpl -> A) : M A := fun e => Ok (f e) e [].
Definition modify (f : EngineImpl -> EngineImpl) : M unit := fun e => Ok tt (f e) [].
Definition call (ev : Event) : M unit := fun e => Ok tt e [ev].
Definition crash {A} (f : Fault) : M A := fun _ => Crash f.

(** [*p] for a nullable pointer. *)
Definition deref {A} (p : option A) : M A :=
  match p with
  | Some a => ret a
  | None => crash NullDereference
  end.

(** [for (auto* x : l) body(x)] *)
Fixpoint for_each {A} (l : list A) (body : A -> M unit) : M unit :=
  match l with
  | [] => ret tt
  | x :: l' => body x ;; for_each l' body
  end.

(** [for (int i = start; i < start + count; ++i) body(i)] *)
Fixpoint for_range (start count : nat) (body : nat -> M unit) : M unit :=
  match count with
  | O => ret tt
  | S c => body start ;; for_range (S start) c body
  end.

(** [for (int i = n - 1; i >= 0; --i) body(i)] *)
Fixpoint for_down (n : nat) (body : nat -> M unit) : M unit :=
  match n with
  | O => ret tt
  | S i => body i ;; for_down i body
  end.

(** [m_scenes[i]] *)
Definition scene_at (i : nat) : M IScene :=
  fun e =>
    match nth_error (m_scenes e) i with
    | Some s => Ok s e []
    | None => Crash IndexOutOfRange
    end.

(** [m_scenes.size()] *)
Definition scenes_size : M nat := gets (fun e => length (m_scenes e)).

(** [m_allocator.newObject<T>(...)] *)
Definition newObject : M addr :=
  a <- gets (fun e => next_free (m_allocator e)) ;;
  modify (set_allocator {| next_free := Pos.succ a |}) ;;
  ret a.

(** [ASSERT(cond)]: aborts when assertions are compiled in and the
    condition is false; expands to nothing otherwise. *)
Definition ASSERT (assertions_enabled cond : bool) : M unit :=
  if assertions_enabled && negb cond then crash AssertionFailed else ret tt.

Definition is_some {A} (o : option A) : bool :=
  match o with Some _ => true | None => false end.

(** ** Universe / scene lifecycle *)

(** [Hierarchy::create] on the new universe, with [m_allocator] *)
Definition Hierarchy_create (u : addr) : M addr :=
  h <- newObject ;;
  call (EvHierarchyCreate u h) ;;
  ret h.

(** [plugin->createScene] on the new universe *)
Definition call_createScene (plugin : IPlugin) (u : addr) : M (option IScene) :=
  let scene := createScene plugin u in
  call (EvCreateScene (plugin_addr plugin) u scene) ;;
  ret scene.

(** [m_scenes.push(scene)] *)
Definition push_scene (s : IScene) : M unit :=
  modify (fun e => set_scenes (m_scenes e ++ [s]) e).

Definition createUniverse : M addr :=
  u <- newObject ;;
  modify (set_universe (Some u)) ;;
  h <- Hierarchy_create u ;;
  modify (set_hierarchy (Some h)) ;;
  plugins <- gets (fun e => getPlugins (m_plugin_manager e)) ;;
  for_each plugins (fun plugin =>
    scene <- call_createScene plugin u ;;
    match scene with
    | Some s => push_scene s
    | None => ret tt
    end) ;;
  ret u.

Definition destroyUniverse (assertions_enabled : bool) : M unit :=
  u <- gets m_universe ;;
  ASSERT assertions_enabled (is_some u) ;;
  match u with
  | Some u =>
      n <- scenes_size ;;
      for_down n (fun i =>
        s <- scene_at i ;;
        call (EvDestroyScene (getPlugin s) s)) ;;
      modify (set_scenes []) ;;
      h <- gets m_hierarchy ;;
      call (EvHierarchyDestroy h) ;;
      modify (set_hierarchy None) ;;
      call (EvDeleteUniverse u) ;;
      modify (set_universe None)
  | None => ret tt
  end.

(** ** Frame update *)

(** [int] arithmetic: the value of a 32-bit signed integer after
    wrap-around (what the target machines do where C++ leaves overflow
    undefined; the sample counter never gets there). *)
Definition wrap_int32 (z : Z) : Z := (z + 2 ^ 31) mod 2 ^ 32 - 2 ^ 31.

(** [m_timer->tick()] and [m_fps_timer->tick()] *)
Definition tick_timer : M float :=
  t <- gets m_timer ;;
  modify (set_timer (snd (Timer_tick t))) ;;
  ret (fst (Timer_tick t)).

Definition tick_fps_timer : M float :=
  t <- gets m_fps_timer ;;
  modify (set_fps_timer (snd (Timer_tick t))) ;;
  ret (fst (Timer_tick t)).

Definition updateGame (dt : float) : M unit :=
  n <- scenes_size ;;
  for_range 0 n (fun i =>
    s <- scene_at i ;;
    call (EvSceneUpdate s dt)) ;;
  call (EvPluginManagerUpdate dt) ;;
  call (EvInputSystemUpdate dt).

(** The first half of [update]: the frame delta and the fps bookkeeping. *)
Definition frame_delta (time_delta_multiplier forced_time_delta : float) : M float :=
  if Float32.ge forced_time_delta (Float32.of_int 0) then
    let dt := Float32.mul forced_time_delta time_delta_multiplier in
    modify (set_fps_frame 0) ;;
    modify (set_fps
      (if Float32.eqb (Float32.mul forced_time_delta time_delta_multiplier)
                      (Float32.of_int 0)
       then Float32.of_int 0
       else Float32.div Float32.one
              (Float32.mul forced_time_delta time_delta_multiplier))) ;;
    _ <- tick_fps_timer ;;
    ret dt
  else
    modify (fun e => set_fps_frame (wrap_int32 (m_fps_frame e + 1)) e) ;;
    frame <- gets m_fps_frame ;;
    (if frame =? 30 then
       t <- tick_fps_timer ;;
       modify (set_fps (Float32.div (Float32.of_int 30) t)) ;;
       modify (set_fps_frame 0)
     else ret tt) ;;
    t <- tick_timer ;;
    ret (Float32.mul t time_delta_multiplier).

(** The second half: who gets the delta. *)
Definition dispatch (is_game_running : bool) (dt : float) : M unit :=
  if is_game_running then
    updateGame dt
  else
    n <- scenes_size ;;
    for_range 0 n (fun i =>
      s <- scene_at i ;;
      r <- gets m_renderer ;;
      if Pos.eqb (getPlugin s) r then call (EvSceneUpdate s dt) else ret tt).

Definition update (is_game_running : bool)
                  (time_delta_multiplier forced_time_delta : float) : M unit :=
  dt <- frame_delta time_delta_multiplier forced_time_delta ;;
  modify (set_last_time_delta dt) ;;
  dispatch is_game_running dt ;;
  call EvUpdateAsyncTransactions.

(** A run of consecutive [update] calls, one triple of arguments per call. *)
Fixpoint update_each (args : list (bool * float * float)) : M unit :=
  match args with
  | [] => ret tt
  | (running, mult, forced) :: rest => update running mult forced ;; update_each rest
  end.

Definition getFPS : EngineImpl -> float := m_fps.
Definition getLastTimeDelta : EngineImpl -> float := m_last_time_delta.
Definition getUniverse : EngineImpl -> option addr := m_universe.
Definition getHierarchy : EngineImpl -> option addr := m_hierarchy.
Definition getScenes : EngineImpl -> list IScene := m_scenes.

(** ** Binary streams *)

Definition byte_of_Z (z : Z) : byte :=
  match Byte.of_N (Z.to_N (z mod 256)) with
  | Some b => b
  | None => x00
  end.

Definition Z_of_byte (b : byte) : Z := Z.of_N (Byte.to_N b).

(** The [n] low-order bytes of [z], least significant first (the object
    representation of an integer on the little-endian targets of the
    engine); a negative [z] comes out in two's complement. *)
Fixpoint le_bytes (n : nat) (z : Z) : list byte :=
  match n with
  | O => []
  | S k => byte_of_Z z :: le_bytes k (z / 256)
  end.

Fixpoint le_value (bs : list byte) : Z :=
  match bs with
  | [] => 0
  | b :: rest => Z_of_byte b + 256 * le_value rest
  end.

(** The 32-bit pattern [z] read as an [int32_t]. *)
Definition to_int32 (z : Z) : Z := if z <? 2 ^ 31 then z else z - 2 ^ 32.

(** Modelled from the spec: [OutputBlob] (core/blob.h) is declared outside
    this file.  Section 4.4: a positional binary stream; [write] appends
    the object representation of its argument, [getSize] is the number of
    bytes written so far (an [int], which bounds what a buffer can hold). *)
Definition OutputBlob : Type := list byte.

Definition OutputBlob_write (bytes : list byte) (b : OutputBlob) : OutputBlob :=
  b ++ bytes.

Definition getSize (b : OutputBlob) : Z := Z.of_nat (length b).

(** Modelled from the spec: [InputBlob] (core/blob.h) is declared outside
    this file.  Section 4.4 describes a strict positional binary stream: a
    read of [n] bytes yields the next [n] bytes and moves the cursor past
    them.  The spec is silent on a read that would run off the end; here
    it yields zeroes and leaves the cursor where it is. *)
Record InputBlob : Type := {
  ib_data : list byte;
  ib_pos : nat
}.

Definition InputBlob_read (n : nat) (b : InputBlob) : list byte * InputBlob :=
  if (ib_pos b + n <=? length (ib_data b))%nat then
    (firstn n (skipn (ib_pos b) (ib_data b)),
     {| ib_data := ib_data b; ib_pos := (ib_pos b + n)%nat |})
  else
    (repeat x00 n, b).

(** ** Serialized header *)

Definition SERIALIZED_ENGINE_MAGIC : Z := 0x5f4c454e.

Inductive SerializedEngineVersion : Type :=
| BASE
| LATEST.

(** Enumerator values, in declaration order. *)
Definition version_value (v : SerializedEngineVersion) : Z :=
  match v with
  | BASE => 0
  | LATEST => 1
  end.

(** [SerializedEngineHeader], packed: a [uint32_t], the version as its
    underlying [int32_t] (a stream may carry any value), a [uint32_t]. *)
Record SerializedEngineHeader : Type := {
  m_magic : Z;
  m_version : Z;
  m_reserved : Z
}.

(** [sizeof(SerializedEngineHeader)] under [#pragma pack(1)] *)
Definition sizeof_SerializedEngineHeader : nat := 4 + 4 + 4.

(** The object representation written by [serializer.write(header)]. *)
Definition header_bytes (h : SerializedEngineHeader) : list byte :=
  le_bytes 4 (m_magic h) ++ le_bytes 4 (m_version h) ++ le_bytes 4 (m_reserved h).

(** The header denoted by the bytes filled in by [serializer.read(header)]. *)
Definition header_of_bytes (bs : list byte) : SerializedEngineHeader :=
  {| m_magic := le_value (firstn 4 bs);
     m_version := to_int32 (le_value (firstn 4 (skipn 4 bs)));
     m_reserved := le_value (firstn 4 (skipn 8 bs)) |}.

Definition write_header (h : SerializedEngineHeader) (b : OutputBlob) : OutputBlob :=
  OutputBlob_write (header_bytes h) b.

Definition read_header (b : InputBlob) : SerializedEngineHeader * InputBlob :=
  let r := InputBlob_read sizeof_SerializedEngineHeader b in
  (header_of_bytes (fst r), snd r).

(** ** Serialization codec *)

(** Modelled from the spec: the collaborators' own [serialize] and
    [deserialize] and the [crc32] of core/crc32.h are defined outside this
    file.  Section 4.4: each collaborator writes its bytes at the end of
    the stream and reads them back from the cursor; the checksum is a
    function of the bytes it is given. *)
Class Codec : Type := {
  crc32 : list byte -> Z;
  serialized_form : Object -> list byte;
  deserialize_from : Object -> InputBlob -> InputBlob
}.

Section Serialization.
Context {codec : Codec}.

(** [o->serialize(serializer)] *)
Definition call_serialize (o : Object) (serializer : OutputBlob) : M OutputBlob :=
  call (EvSerialize o) ;;
  ret (OutputBlob_write (serialized_form o) serializer).

(** [o->deserialize(serializer)] *)
Definition call_deserialize (o : Object) (serializer : InputBlob) : M InputBlob :=
  call (EvDeserialize o) ;;
  ret (deserialize_from o serializer).

(** An index loop that threads the stream through its body. *)
Fixpoint for_range_with {S : Type} (start count : nat)
    (body : nat -> S -> M S) (s : S) : M S :=
  match count with
  | O => ret s
  | S c => s' <- body start s ;; for_range_with (Datatypes.S start) c body s'
  end.

Definition serialize (serializer : OutputBlob) : M (Z * OutputBlob) :=
  let header := {| m_magic := SERIALIZED_ENGINE_MAGIC;
                   m_version := version_value LATEST;
                   m_reserved := 0 |} in
  let serializer := write_header header serializer in
  serializer <- call_serialize ObjPathManager serializer ;;
  let pos := getSize serializer in
  u <- gets m_universe ;;
  u <- deref u ;;
  serializer <- call_serialize (ObjUniverse u) serializer ;;
  h <- gets m_hierarchy ;;
  h <- deref h ;;
  serializer <- call_serialize (ObjHierarchy h) serializer ;;
  r <- gets m_renderer ;;
  serializer <- call_serialize (ObjRenderer r) serializer ;;
  serializer <- call_serialize ObjPluginManager serializer ;;
  n <- scenes_size ;;
  serializer <- for_range_with 0 n (fun i serializer =>
    s <- scene_at i ;;
    call_serialize (ObjScene s) serializer) serializer ;;
  let crc := crc32 (firstn (Z.to_nat (getSize serializer - pos))
                           (skipn (Z.to_nat pos) serializer)) in
  ret (crc, serializer).

Definition deserialize (serializer : InputBlob) : M (bool * InputBlob) :=
  let (header, serializer) := read_header serializer in
  if negb (m_magic header =? SERIALIZED_ENGINE_MAGIC) then
    call (EvLogError "engine" "Wrong or corrupted file") ;;
    ret (false, serializer)
  else if version_value LATEST <? m_version header then
    call (EvLogError "engine" "Unsupported version") ;;
    ret (false, serializer)
  else
    serializer <- call_deserialize ObjPathManager serializer ;;
    u <- gets m_universe ;;
    u <- deref u ;;
    serializer <- call_deserialize (ObjUniverse u) serializer ;;
    h <- gets m_hierarchy ;;
    h <- deref h ;;
    serializer <- call_deserialize (ObjHierarchy h) serializer ;;
    r <- gets m_renderer ;;
    serializer <- call_deserialize (ObjRenderer r) serializer ;;
    serializer <- call_deserialize ObjPluginManager serializer ;;
    n <- scenes_size ;;
    serializer <- for_range_with 0 n (fun i serializer =>
      s <- scene_at i ;;
      call_deserialize (ObjScene s) serializer) serializer ;;
    ret (true, serializer).

End Serialization.

(** ** Construction *)

(** [Engine::create]: the constructor followed by [create()].  The
    arguments are what the collaborators answer: the plugin manager and
    the renderer instance (null on failure), and whether the renderer's
    and the input system's own [create] succeed.  [m_last_time_delta] is
    not initialised by the constructor; its initial content is the last
    argument. *)
Definition Engine_create (allocator : IAllocator)
    (plugin_manager : option PluginManager) (renderer : option IPlugin)
    (renderer_create input_system_create : bool)
    (timer fps_timer : Timer) (last_time_delta : float) : option EngineImpl :=
  match plugin_manager with
  | None => None
  | Some pm =>
      match renderer with
      | None => None
      | Some r =>
          if negb renderer_create then None
          else if negb input_system_create then None
          else Some {| m_allocator := allocator;
                       m_renderer := plugin_addr r;
                       m_plugin_manager := addPlugin r pm;
                       m_universe := None;
                       m_hierarchy := None;
                       m_scenes := [];
                       m_timer := timer;
                       m_fps_timer := fps_timer;
                       m_fps_frame := 0;
                       m_fps := Float32.of_int 0;
                       m_last_time_delta := last_time_delta |}
      end
  end.

(** ** Construction and teardown in full *)

(** The fields of [EngineImpl] that the members above never touch. *)
Record EngineShell : Type := {
  m_file_system : addr;
  m_mem_file_device : option addr;
  m_disk_file_device : option addr;
  m_base_path : string;
  m_editor : option addr
}.

(** Calls made on collaborators while an engine is set up or torn down. *)
Inductive SetupEvent : Type :=
| SuInstallUnhandledExceptionHandler (base_path : string)
| SuBindLogCallback (log : string)
| SuFileSystemCreate (fs : addr)
| SuNewMemoryFileDevice (device : addr)
| SuNewDiskFileDevice (device : addr)
| SuMount (fs device : addr)
| SuSetDefaultDevice (fs : addr) (name : string)
| SuSetSaveGameDevice (fs : addr) (name : string)
| SuResourceManagerCreate (fs : addr)
| SuTimerCreate
| SuPluginManagerCreate (created : bool)
| SuRendererCreateInstance (instance : option addr)
| SuRendererCreate (renderer : addr) (ok : bool)
| SuRendererDestroyInstance (renderer : addr)
| SuAddPlugin (plugin : addr)
| SuInputSystemCreate (ok : bool)
| SuTimerDestroy
| SuPluginManagerDestroy (manager_exists : bool)
| SuInputSystemDestroy
| SuFileSystemDestroy (fs : addr)
| SuDeleteObject (a : addr).

(** The constructor: with no file system injected it builds one with a
    memory and a disk device, mounts both and names the pair as default
    and save-game device; otherwise it adopts the injected one and keeps
    no devices.  Then the resource manager and the two timers. *)
Definition EngineImpl_constructor (base_path : string) (fs : option addr)
    (allocator : IAllocator) : EngineShell * IAllocator * list SetupEvent :=
  let '(shell, allocator', wiring) :=
    match fs with
    | None =>
        let file_system := next_free allocator in
        let mem := Pos.succ file_system in
        let disk := Pos.succ mem in
        ({| m_file_system := file_system;
            m_mem_file_device := Some mem;
            m_disk_file_device := Some disk;
            m_base_path := base_path;
            m_editor := None |},
         {| next_free := Pos.succ disk |},
         [SuFileSystemCreate file_system;
          SuNewMemoryFileDevice mem;
          SuNewDiskFileDevice disk;
          SuMount file_system mem;
          SuMount file_system disk;
          SuSetDefaultDevice file_system "memory:disk";
          SuSetSaveGameDevice file_system "memory:disk"])
    | Some file_system =>
        ({| m_file_system := file_system;
            m_mem_file_device := None;
            m_disk_file_device := None;
            m_base_path := base_path;
            m_editor := None |},
         allocator,
         [])
    end in
  (shell, allocator',
   wiring ++ [SuResourceManagerCreate (m_file_system shell); SuTimerCreate; SuTimerCreate]).

(** [create()], call by call; the arguments are the collaborators'
    answers, as for [Engine_create]. *)
Definition EngineImpl_create (plugin_manager : option PluginManager)
    (renderer : option IPlugin) (renderer_create input_system_create : bool)
    : bool * list SetupEvent :=
  match plugin_manager with
  | None => (false, [SuPluginManagerCreate false])
  | Some _ =>
      match renderer with
      | None => (false, [SuPluginManagerCreate true; SuRendererCreateInstance None])
      | Some r =>
          let a := plugin_addr r in
          if negb renderer_create then
            (false, [SuPluginManagerCreate true; SuRendererCreateInstance (Some a);
                     SuRendererCreate a false; SuRendererDestroyInstance a])
          else if negb input_system_create then
            (false, [SuPluginManagerCreate true; SuRendererCreateInstance (Some a);
                     SuRendererCreate a true; SuAddPlugin a; SuInputSystemCreate false])
          else
            (true, [SuPluginManagerCreate true; SuRendererCreateInstance (Some a);
                    SuRendererCreate a true; SuAddPlugin a; SuInputSystemCreate true])
      end
  end.

(** The destructor.  [manager_exists] tells whether [m_plugin_manager] is
    non-null when it runs. *)
Definition EngineImpl_destructor (manager_exists : bool) (shell : EngineShell)
    : list SetupEvent :=
  [SuTimerDestroy; SuTimerDestroy; SuPluginManagerDestroy manager_exists;
   SuInputSystemDestroy]
  ++ match m_disk_file_device shell with
     | Some disk =>
         [SuFileSystemDestroy (m_file_system shell)]
         ++ match m_mem_file_device shell with
            | Some mem => [SuDeleteObject mem]
            | None => []
            end
         ++ [SuDeleteObject disk]
     | None => []
     end.

(** [Engine::create] in full: the handlers, the constructor, [create()],
    and on failure the destructor, run by [deleteObject(engine)].  The
    engine object's own address is left out; timers and the initial
    content of [m_last_time_delta] are arguments, as for [Engine_create]. *)
Definition Engine_create_full (base_path : string) (fs : option addr)
    (allocator : IAllocator)
    (plugin_manager : option PluginManager) (renderer : option IPlugin)
    (renderer_create input_system_create : bool)
    (timer fps_timer : Timer) (last_time_delta : float)
    : option (EngineImpl * EngineShell) * list SetupEvent :=
  let '(shell, allocator', built) := EngineImpl_constructor base_path fs allocator in
  let '(ok, created) :=
    EngineImpl_create plugin_manager renderer renderer_create input_system_create in
  let events :=
    [SuInstallUnhandledExceptionHandler base_path;
     SuBindLogCallback "info"; SuBindLogCallback "warning"; SuBindLogCallback "error"]
    ++ built ++ created in
  if ok then
    (match Engine_create allocator' plugin_manager renderer renderer_create
             input_system_create timer fps_timer last_time_delta with
     | Some core => Some (core, shell)
     | None => None
     end,
     events)
  else
    (None, events ++ EngineImpl_destructor (is_some plugin_manager) shell).

(** [Engine::destroy]: [deleteObject(engine)] runs the destructor. *)
Definition Engine_destroy (shell : EngineShell) : list SetupEvent :=
  EngineImpl_destructor true shell.

(** The objects a trace acquires from the allocator for the file system,
    and the ones it gives back. *)
Fixpoint acquired (events : list SetupEvent) : list addr :=
  match events with
  | [] => []
  | SuFileSystemCreate a :: rest
  | SuNewMemoryFileDevice a :: rest
  | SuNewDiskFileDevice a :: rest => a :: acquired rest
  | _ :: rest => acquired rest
  end.

Fixpoint released (events : list SetupEvent) : list addr :=
  match events with
  | [] => []
  | SuFileSystemDestroy a :: rest
  | SuDeleteObject a :: rest => a :: released rest
  | _ :: rest => released rest
  end.

(** Calls that reconfigure or destroy a file system. *)
Definition touches_file_system (ev : SetupEvent) : bool :=
  match ev with
  | SuMount _ _ | SuSetDefaultDevice _ _ | SuSetSaveGameDevice _ _
  | SuFileSystemDestroy _ | SuDeleteObject _ => true
  | _ => false
  end.

(** Everything an engine's life does to its collaborators outside the
    frame loop: creation and, if an engine was handed out, its eventual
    destruction. *)
Definition whole_life (base_path : string) (fs : option addr) (allocator : IAllocator)
    (plugin_manager : option PluginManager) (renderer : option IPlugin)
    (renderer_create input_system_create : bool)
    (timer fps_timer : Timer) (last_time_delta : float) : list SetupEvent :=
  match Engine_create_full base_path fs allocator plugin_manager renderer
          renderer_create input_system_create timer fps_timer last_time_delta with
  | (Some (_, shell), events) => events ++ Engine_destroy shell
  | (None, events) => events
  end.

(** ** Vocabulary of the statements *)

(** The state between sessions: no universe, no hierarchy, no scene. *)
Definition NoUniverse (e : EngineImpl) : Prop :=
  m_universe e = None /\ m_hierarchy e = None /\ m_scenes e = [].

(** A scene's back-reference names the plugin whose hook created it. *)
Definition scenes_name_their_creator (plugins : list IPlugin) : Prop :=
  forall p u s, In p plugins -> createScene p u = Some s -> getPlugin s = plugin_addr p.

(** What instrumented plugins would record: which plugin created which
    scene, and which plugin was asked to destroy which scene. *)
Fixpoint created_by (calls : list Event) : list (addr * IScene) :=
  match calls with
  | [] => []
  | EvCreateScene p _ (Some s) :: rest => (p, s) :: created_by rest
  | _ :: rest => created_by rest
  end.

Fixpoint destroyed_by (calls : list Event) : list (addr * IScene) :=
  match calls with
  | [] => []
  | EvDestroyScene p s :: rest => (p, s) :: destroyed_by rest
  | _ :: rest => destroyed_by rest
  end.

(** The scenes a plugin list yields for universe [u], in order. *)
Definition scenes_of (plugins : list IPlugin) (u : addr) : list IScene :=
  flat_map (fun p => match createScene p u with Some s => [s] | None => [] end) plugins.

Definition owned_by_renderer (e : EngineImpl) (s : IScene) : bool :=
  Pos.eqb (getPlugin s) (m_renderer e).

(** Who [update] hands [dt] to, in order. *)
Definition dispatched (is_game_running : bool) (dt : float) (e : EngineImpl) : list Event :=
  if is_game_running then
    map (fun s => EvSceneUpdate s dt) (m_scenes e)
    ++ [EvPluginManagerUpdate dt; EvInputSystemUpdate dt]
  else
    map (fun s => EvSceneUpdate s dt) (filter (owned_by_renderer e) (m_scenes e)).

(** What follows the path table in a stream, in order, for universe [u]
    and hierarchy [h]. *)
Definition stream_objects (e : EngineImpl) (u h : addr) : list Object :=
  [ObjUniverse u; ObjHierarchy h; ObjRenderer (m_renderer e); ObjPluginManager]
  ++ map ObjScene (m_scenes e).

(** The boolean a call returned, if it returned. *)
Definition verdict {A} (r : Result (bool * A)) : option bool :=
  match r with
  | Ok (b, _) _ _ => Some b
  | Crash _ => None
  end.

(** The effect of a sequence of calls on the collaborators, for any
    account [step] of what each call does to their state [W]. *)
Definition run_calls {W} (step : Event -> W -> W) (calls : list Event) (w : W) : W :=
  fold_left (fun w ev => step ev w) calls w.

Definition latest_header : SerializedEngineHeader :=
  {| m_magic := SERIALIZED_ENGINE_MAGIC;
     m_version := version_value LATEST;
     m_reserved := 0 |}.

(** ** A small engine to run things on *)

Definition scene_of_renderer : IScene := {| scene_addr := 101%positive; getPlugin := 1%positive |}.
Definition scene_of_physics : IScene := {| scene_addr := 102%positive; getPlugin := 2%positive |}.

Definition renderer_plugin : IPlugin :=
  {| plugin_addr := 1%positive; getName := "renderer";
     createScene := fun _ => Some scene_of_renderer |}.

Definition physics_plugin : IPlugin :=
  {| plugin_addr := 2%positive; getName := "physics";
     createScene := fun _ => Some scene_of_physics |}.

(** A plugin that contributes no scene. *)
Definition script_plugin : IPlugin :=
  {| plugin_addr := 3%positive; getName := "script"; createScene := fun _ => None |}.

(** A clock that reports a sixtieth of a second every time. *)
Definition steady_timer : Timer :=
  {| elapsed_at := fun _ => Float32.literal 1 60; tick_count := 0 |}.

Definition fresh_engine : EngineImpl :=
  {| m_allocator := {| next_free := 1000%positive |};
     m_renderer := 1%positive;
     m_plugin_manager := {| getPlugins := [renderer_plugin; physics_plugin; script_plugin] |};
     m_universe := None;
     m_hierarchy := None;
     m_scenes := [];
     m_timer := steady_timer;
     m_fps_timer := steady_timer;
     m_fps_frame := 0;
     m_fps := Float32.of_int 0;
     m_last_time_delta := Float32.of_int 0 |}.

(** [fresh_engine] after [createUniverse]. *)
Definition active_engine : EngineImpl :=
  {| m_allocator := {| next_free := 1002%positive |};
     m_renderer := 1%positive;
     m_plugin_manager := {| getPlugins := [renderer_plugin; physics_plugin; script_plugin] |};
     m_universe := Some 1000%positive;
     m_hierarchy := Some 1001%positive;
     m_scenes := [scene_of_renderer; scene_of_physics];
     m_timer := steady_timer;
     m_fps_timer := steady_timer;
     m_fps_frame := 0;
     m_fps := Float32.of_int 0;
     m_last_time_delta := Float32.of_int 0 |}.

(** CRC-32 (reflected, polynomial [0xEDB88320]), bit by bit. *)
Definition crc32_bit (crc : Z) : Z :=
  if Z.odd crc then Z.lxor (Z.shiftr crc 1) 0xEDB88320 else Z.shiftr crc 1.

Definition crc32_byte (crc : Z) (b : byte) : Z :=
  Nat.iter 8 crc32_bit (Z.lxor crc (Z_of_byte b)).

Definition crc32_bytes (bs : list byte) : Z :=
  Z.lxor (fold_left crc32_byte bs 0xFFFFFFFF) 0xFFFFFFFF.

(** Collaborators that write their address as four bytes, and read as
    many bytes as they wrote. *)
Definition sample_form (o : Object) : list byte :=
  match o with
  | ObjPathManager => [x00]
  | ObjUniverse u => le_bytes 4 (Zpos u)
  | ObjHierarchy h => le_bytes 4 (Zpos h)
  | ObjRenderer r => le_bytes 4 (Zpos r)
  | ObjPluginManager => []
  | ObjScene s => le_bytes 4 (Zpos (scene_addr s))
  end.

Definition sample_codec : Codec :=
  {| crc32 := crc32_bytes;
     serialized_form := sample_form;
     deserialize_from := fun o b =>
       snd (InputBlob_read (length (sample_form o)) b) |}.


(** The stream [serialize] writes for [active_engine] with these
    collaborators, starting from an empty buffer. *)
Definition sample_stream : list byte :=
  Eval vm_compute in
    match serialize (codec := sample_codec) [] active_engine with
    | Ok (_, out) _ _ => out
    | Crash _ => []
    end.

(** ** Scene lookup *)

(** Modelled from the spec: what a scene answers to [ownComponentType],
    and which plugin object a scene's [getPlugin()] reference designates,
    are decided outside this file (section 6: owns-component-type(type),
    get-owning-plugin()). *)
Class SceneQueries : Type := {
  ownComponentType : IScene -> Z -> bool;
  plugin_object : addr -> IPlugin
}.

(** [for (int i = start; i < start + count; ++i)
       if (pred(m_scenes[i])) return m_scenes[i];
     return nullptr;]
    The loop is only ever run within the bounds of the registry. *)
Fixpoint scan_scenes (pred : IScene -> bool) (scenes : list IScene)
    (start count : nat) : option IScene :=
  match count with
  | O => None
  | S c =>
      match nth_error scenes start with
      | Some s => if pred s then Some s else scan_scenes pred scenes (S start) c
      | None => None
      end
  end.

Section Lookup.
Context {queries : SceneQueries} {codec : Codec}.

Definition getSceneByComponentType (type : Z) (e : EngineImpl) : option IScene :=
  scan_scenes (fun s => ownComponentType s type) (m_scenes e) 0 (length (m_scenes e)).

(** [crc32(plugin.getName())] *)
Definition name_hash (p : IPlugin) : Z := crc32 (list_byte_of_string (getName p)).

Definition getScene (type : Z) (e : EngineImpl) : option IScene :=
  scan_scenes (fun s => name_hash (plugin_object (getPlugin s)) =? type)
    (m_scenes e) 0 (length (m_scenes e)).

End Lookup.

(** ** Sequences of facade calls *)

Inductive Call : Type :=
| CallCreateUniverse
| CallDestroyUniverse
| CallUpdate (is_game_running : bool) (time_delta_multiplier forced_time_delta : float)
| CallSerialize (serializer : OutputBlob)
| CallDeserialize (serializer : InputBlob).

Section Calls.
Context {codec : Codec}.

Definition perform (assertions_enabled : bool) (c : Call) : M unit :=
  match c with
  | CallCreateUniverse => _ <- createUniverse ;; ret tt
  | CallDestroyUniverse => destroyUniverse assertions_enabled
  | CallUpdate running mult forced => update running mult forced
  | CallSerialize serializer => _ <- serialize serializer ;; ret tt
  | CallDeserialize serializer => _ <- deserialize serializer ;; ret tt
  end.

Fixpoint perform_all (assertions_enabled : bool) (cs : list Call) : M unit :=
  match cs with
  | [] => ret tt
  | c :: rest => perform assertions_enabled c ;; perform_all assertions_enabled rest
  end.

End Calls.

(** The registry as (owning plugin, scene) pairs. *)
Definition scene_pairs (scenes : list IScene) : list (addr * IScene) :=
  map (fun s => (getPlugin s, s)) scenes.

(** What holds of the fields between any two facade calls. *)
Definition well_formed (e : EngineImpl) : Prop :=
  is_some (m_universe e) = is_some (m_hierarchy e) /\
  (m_universe e = None -> m_scenes e = []) /\
  0 <= m_fps_frame e < 30 /\
  (forall s, In s (m_scenes e) ->
     exists p u, In p (getPlugins (m_plugin_manager e)) /\ createScene p u = Some s).

(** Calls that neither create nor destroy a scene. *)
Definition lifecycle_neutral (ev : Event) : bool :=
  match ev with
  | EvCreateScene _ _ _ | EvDestroyScene _ _ => false
  | _ => true
  end.

(** Floats that are neither infinite nor NaN, and the two zeroes. *)
Definition is_finite (f : float) : bool :=
  match f with
  | S754_zero _ | S754_finite _ _ _ => true
  | _ => false
  end.

Definition is_zero (f : float) : bool :=
  match f with
  | S754_zero _ => true
  | _ => false
  end.

(** The calls of [update] that hand a delta to a collaborator, with the
    delta they hand over. *)
Definition delta_of (ev : Event) : option float :=
  match ev with
  | EvSceneUpdate _ dt | EvPluginManagerUpdate dt | EvInputSystemUpdate dt => Some dt
  | _ => None
  end.

(** How often the file system was asked to drain its asynchronous
    transactions. *)
Definition drains (calls : list Event) : nat :=
  length (filter (fun ev => match ev with
                            | EvUpdateAsyncTransactions => true
                            | _ => false
                            end) calls).

(** The live-mode calls of a run of [update] arguments. *)
Definition live_calls (args : list (bool * float * float)) : nat :=
  length (filter (fun a => negb (Float32.ge (snd a) (Float32.of_int 0))) args).

(** A codec whose objects read back exactly as many bytes as they wrote. *)
Definition reads_what_it_wrote (codec : Codec) : Prop :=
  forall o b,
    (ib_pos b + length (serialized_form o) <= length (ib_data b))%nat ->
    deserialize_from o b
    = {| ib_data := ib_data b; ib_pos := (ib_pos b + length (serialized_form o))%nat |}.

(** Scenes that own the component type numbered like their address, and
    the three sample plugins at their addresses. *)
Definition sample_queries : SceneQueries :=
  {| ownComponentType := fun s type => type =? Zpos (scene_addr s);
     plugin_object := fun a =>
       if Pos.eqb a 1 then renderer_plugin
       else if Pos.eqb a 2 then physics_plugin
       else script_plugin |}.

(** A session on the sample engine: create the universe, run a live frame,
    save, tear the universe down. *)
Definition sample_session : list Call :=
  [CallCreateUniverse;
   CallUpdate true (Float32.of_int 1) (Float32.of_int (-1));
   CallSerialize [];
   CallDestroyUniverse].

(** * Properties *)

(** ** Running the monad *)

Lemma bind_Ok {A B} (m : M A) (k : A -> M B) e a e1 c1 :
  m e = Ok a e1 c1 ->
  bind m k e = match k a e1 with
               | Ok b e2 c2 => Ok b e2 (c1 ++ c2)
               | Crash f => Crash f
               end.
Proof. intros Hm. unfold bind. rewrite Hm. reflexivity. Qed.

Lemma bind_silent {A B} (m : M A) (k : A -> M B) e a e1 :
  m e = Ok a e1 [] -> bind m k e = k a e1.
Proof. intros Hm. rewrite (bind_Ok _ _ _ _ _ _ Hm). destruct (k a e1); reflexivity. Qed.

Lemma bind_ret {A B} (a : A) (k : A -> M B) e : bind (ret a) k e = k a e.
Proof. apply bind_silent. reflexivity. Qed.

Lemma bind_gets {A B} (f : EngineImpl -> A) (k : A -> M B) e :
  bind (gets f) k e = k (f e) e.
Proof. apply bind_silent. reflexivity. Qed.

Lemma bind_modify {B} (f : EngineImpl -> EngineImpl) (k : unit -> M B) e :
  bind (modify f) k e = k tt (f e).
Proof. apply bind_silent. reflexivity. Qed.

Lemma bind_call {B} (ev : Event) (k : unit -> M B) e :
  bind (call ev) k e = match k tt e with
                       | Ok b e2 c2 => Ok b e2 (ev :: c2)
                       | Crash f => Crash f
                       end.
Proof. reflexivity. Qed.

Lemma bind_scene_at {B} (k : IScene -> M B) e i s :
  nth_error (m_scenes e) i = Some s -> bind (scene_at i) k e = k s e.
Proof. intros Hn. apply bind_silent. unfold scene_at. rewrite Hn. reflexivity. Qed.

Lemma set_scenes_same e : set_scenes (m_scenes e) e = e.
Proof. destruct e; reflexivity. Qed.

Lemma nth_error_middle {A} (l1 l2 : list A) x :
  nth_error (l1 ++ x :: l2) (length l1) = Some x.
Proof. induction l1 as [|y l1 IH]; simpl; [reflexivity | exact IH]. Qed.

(** ** Loops over the scene registry *)

(** A descending index loop visits the registry back to front. *)
Lemma for_down_scenes (f : IScene -> Event) e :
  forall l1 l2, m_scenes e = l1 ++ l2 ->
  for_down (length l1) (fun i => s <- scene_at i ;; call (f s)) e
  = Ok tt e (map f (rev l1)).
Proof.
  induction l1 as [|x l IH] using rev_ind; intros l2 Hs.
  - reflexivity.
  - rewrite length_app, Nat.add_1_r. cbn [for_down].
    rewrite <- app_assoc in Hs. cbn [app] in Hs.
    rewrite (bind_Ok _ _ e tt e [f x]).
    + rewrite (IH (x :: l2) Hs), rev_app_distr. reflexivity.
    + rewrite (bind_scene_at _ e _ x); [reflexivity |].
      rewrite Hs. apply nth_error_middle.
Qed.

(** An ascending index loop whose body leaves the fields alone visits the
    registry front to back. *)
Lemma for_range_scenes e (k : IScene -> M unit) (g : IScene -> list Event) :
  (forall s, k s e = Ok tt e (g s)) ->
  forall l2 l1, m_scenes e = l1 ++ l2 ->
  for_range (length l1) (length l2) (fun i => s <- scene_at i ;; k s) e
  = Ok tt e (flat_map g l2).
Proof.
  intros Hk. induction l2 as [|x l2 IH]; intros l1 Hs.
  - reflexivity.
  - cbn [length for_range flat_map].
    rewrite (bind_Ok _ _ e tt e (g x)).
    + specialize (IH (l1 ++ [x])).
      rewrite length_app, Nat.add_1_r in IH. rewrite IH; [reflexivity |].
      rewrite <- app_assoc. exact Hs.
    + rewrite (bind_scene_at _ e _ x); [apply Hk |].
      rewrite Hs. apply nth_error_middle.
Qed.

Lemma flat_map_filter {A B} (p : A -> bool) (f : A -> B) (l : list A) :
  flat_map (fun x => if p x then [f x] else []) l = map f (filter p l).
Proof.
  induction l as [|x l IH]; simpl; [reflexivity |].
  destruct (p x); simpl; rewrite IH; reflexivity.
Qed.

Lemma flat_map_singleton {A B} (f : A -> B) (l : list A) :
  flat_map (fun x => [f x]) l = map f l.
Proof. induction l as [|x l IH]; simpl; [reflexivity | rewrite IH; reflexivity]. Qed.

(** ** Universe lifecycle *)

(** The plugin loop of [createUniverse] appends the scenes the plugins
    return, in plugin order, and calls every hook once. *)
Lemma create_scenes_loop u : forall plugins e,
  for_each plugins (fun plugin =>
    scene <- call_createScene plugin u ;;
    match scene with
    | Some s => push_scene s
    | None => ret tt
    end) e
  = Ok tt (set_scenes (m_scenes e ++ scenes_of plugins u) e)
      (map (fun p => EvCreateScene (plugin_addr p) u (createScene p u)) plugins).
Proof.
  induction plugins as [|p plugins IH]; intros e.
  - cbn. rewrite app_nil_r, set_scenes_same. reflexivity.
  - cbn [for_each map]. unfold scenes_of in *. cbn [flat_map].
    unfold call_createScene at 1.
    destruct (createScene p u) as [s|] eqn:Hc.
    + rewrite (bind_Ok _ _ e tt (set_scenes (m_scenes e ++ [s]) e)
                 [EvCreateScene (plugin_addr p) u (Some s)]) by reflexivity.
      rewrite IH. cbn. rewrite <- app_assoc. reflexivity.
    + rewrite (bind_Ok _ _ e tt e [EvCreateScene (plugin_addr p) u None])
        by reflexivity.
      rewrite IH. reflexivity.
Qed.

Lemma createUniverse_spec e :
  let u := next_free (m_allocator e) in
  let h := Pos.succ u in
  let plugins := getPlugins (m_plugin_manager e) in
  createUniverse e
  = Ok u
      (set_scenes (m_scenes e ++ scenes_of plugins u)
        (set_hierarchy (Some h)
          (set_allocator {| next_free := Pos.succ h |}
            (set_universe (Some u)
              (set_allocator {| next_free := h |} e)))))
      (EvHierarchyCreate u h
       :: map (fun p => EvCreateScene (plugin_addr p) u (createScene p u)) plugins).
Proof.
  cbv zeta. unfold createUniverse.
  rewrite (bind_silent _ _ e (next_free (m_allocator e))
             (set_allocator {| next_free := Pos.succ (next_free (m_allocator e)) |} e))
    by reflexivity.
  rewrite bind_modify.
  erewrite bind_Ok by reflexivity.
  rewrite bind_modify, bind_gets.
  erewrite bind_Ok by apply create_scenes_loop.
  cbn. rewrite app_nil_r. reflexivity.
Qed.

Lemma destroyUniverse_spec assertions e u :
  m_universe e = Some u ->
  destroyUniverse assertions e
  = Ok tt (set_universe None (set_hierarchy None (set_scenes [] e)))
      (map (fun s => EvDestroyScene (getPlugin s) s) (rev (m_scenes e))
       ++ [EvHierarchyDestroy (m_hierarchy e); EvDeleteUniverse u]).
Proof.
  intros Hu. unfold destroyUniverse.
  rewrite bind_gets, Hu. unfold ASSERT. cbn [is_some negb].
  rewrite andb_false_r, bind_ret. unfold scenes_size. rewrite bind_gets.
  erewrite bind_Ok
    by exact (for_down_scenes (fun s => EvDestroyScene (getPlugin s) s) e
                (m_scenes e) [] (eq_sym (app_nil_r _))).
  reflexivity.
Qed.

Lemma created_by_hooks u : forall plugins,
  created_by (map (fun p => EvCreateScene (plugin_addr p) u (createScene p u)) plugins)
  = flat_map (fun p => match createScene p u with
                       | Some s => [(plugin_addr p, s)]
                       | None => []
                       end) plugins.
Proof.
  induction plugins as [|p plugins IH]; [reflexivity |].
  cbn [map created_by flat_map].
  destruct (createScene p u); cbn; rewrite IH; reflexivity.
Qed.

Lemma destroyed_by_hooks (l : list IScene) (rest : list Event) :
  destroyed_by (map (fun s => EvDestroyScene (getPlugin s) s) l ++ rest)
  = map (fun s => (getPlugin s, s)) l ++ destroyed_by rest.
Proof. induction l as [|s l IH]; cbn; [reflexivity | rewrite IH; reflexivity]. Qed.

(** When scenes name their creator, pairing each scene with its
    back-reference gives back the creation record. *)
Lemma back_references_of_created u : forall plugins,
  scenes_name_their_creator plugins ->
  map (fun s => (getPlugin s, s)) (scenes_of plugins u)
  = flat_map (fun p => match createScene p u with
                       | Some s => [(plugin_addr p, s)]
                       | None => []
                       end) plugins.
Proof.
  unfold scenes_of.
  induction plugins as [|p plugins IH]; intros Hc; [reflexivity |].
  cbn [flat_map]. rewrite map_app, IH.
  - f_equal. destruct (createScene p u) as [s|] eqn:Hs; [| reflexivity].
    cbn. rewrite (Hc p u s (or_introl eq_refl) Hs). reflexivity.
  - intros q v s Hq. apply Hc. right. exact Hq.
Qed.

(** C1. For every set of registered plugins, createUniverse() followed by
    destroyUniverse() on an engine in the NoUniverse state ends in the
    NoUniverse state again: empty scene registry, null universe, null
    hierarchy.  Both calls return, the universe is active in between, and
    apart from the allocator every field is what it was before. *)
Theorem createUniverse_destroyUniverse_restores (assertions : bool) (e : EngineImpl) :
  NoUniverse e ->
  exists u e1 c1 e2 c2,
    createUniverse e = Ok u e1 c1 /\
    m_universe e1 = Some u /\
    destroyUniverse assertions e1 = Ok tt e2 c2 /\
    NoUniverse e2 /\
    e2 = set_allocator (m_allocator e2) e.
Proof.
  intros (Hu & Hh & Hs).
  pose proof (createUniverse_spec e) as Hc. cbv zeta in Hc.
  eexists _, _, _, _, _. split; [exact Hc |].
  split; [reflexivity |].
  split; [apply destroyUniverse_spec; reflexivity |].
  split; [repeat split |].
  destruct e; cbn in *. subst. reflexivity.
Qed.

Lemma createUniverse_destroyUniverse_restores_witness :
  NoUniverse fresh_engine /\
  exists u e1 c1 e2 c2,
    createUniverse fresh_engine = Ok u e1 c1 /\
    m_universe e1 = Some u /\
    destroyUniverse true e1 = Ok tt e2 c2 /\
    NoUniverse e2 /\
    e2 = set_allocator (m_allocator e2) fresh_engine.
Proof.
  split.
  - repeat split.
  - apply (createUniverse_destroyUniverse_restores true fresh_engine).
    repeat split.
Defined.

(** C2. destroyUniverse(), called on the active universe that
    createUniverse() set up, destroys the scenes in the exact reverse of
    the order in which they were appended, each one through the
    destroy-scene hook of the plugin whose create-scene hook produced it:
    the record of (plugin, scene) destructions is the reverse of the record
    of (plugin, scene) creations.  The hook used is the one of the scene's
    back-reference, which by the data model names the creating plugin. *)
Theorem destroyUniverse_reverses_creation (assertions : bool) (e : EngineImpl) :
  NoUniverse e ->
  scenes_name_their_creator (getPlugins (m_plugin_manager e)) ->
  exists u e1 c1 e2 c2,
    createUniverse e = Ok u e1 c1 /\
    destroyUniverse assertions e1 = Ok tt e2 c2 /\
    c2 = map (fun s => EvDestroyScene (getPlugin s) s) (rev (m_scenes e1))
         ++ [EvHierarchyDestroy (m_hierarchy e1); EvDeleteUniverse u] /\
    destroyed_by c2 = rev (created_by c1).
Proof.
  intros (Hu & Hh & Hs) Hown.
  pose proof (createUniverse_spec e) as Hc. cbv zeta in Hc.
  eexists _, _, _, _, _. split; [exact Hc |].
  split; [apply destroyUniverse_spec; reflexivity |].
  split; [reflexivity |].
  rewrite destroyed_by_hooks. cbn [destroyed_by created_by].
  rewrite app_nil_r, created_by_hooks, map_rev. f_equal.
  cbn [m_scenes set_scenes]. rewrite Hs. cbn [app].
  apply back_references_of_created. exact Hown.
Qed.

Lemma sample_scenes_name_their_creator :
  scenes_name_their_creator (getPlugins (m_plugin_manager fresh_engine)).
Proof.
  intros p u s Hin Hc. cbn in Hin.
  destruct Hin as [<- | [<- | [<- | []]]]; cbn in Hc; inversion Hc; reflexivity.
Qed.

Lemma destroyUniverse_reverses_creation_witness :
  exists u e1 c1 e2 c2,
    createUniverse fresh_engine = Ok u e1 c1 /\
    destroyUniverse true e1 = Ok tt e2 c2 /\
    c2 = map (fun s => EvDestroyScene (getPlugin s) s) (rev (m_scenes e1))
         ++ [EvHierarchyDestroy (m_hierarchy e1); EvDeleteUniverse u] /\
    destroyed_by c2 = rev (created_by c1).
Proof.
  apply (destroyUniverse_reverses_creation true fresh_engine).
  - repeat split.
  - exact sample_scenes_name_their_creator.
Defined.

(** C10. With assertions compiled out, destroyUniverse() on an engine
    whose universe pointer is null is a no-op: it returns, it calls nothing
    (no scene or hierarchy destruction), and it leaves every field,
    registry included, as it was. *)
Theorem destroyUniverse_without_universe_is_noop (e : EngineImpl) :
  m_universe e = None ->
  destroyUniverse false e = Ok tt e [].
Proof.
  intros Hu. unfold destroyUniverse.
  rewrite bind_gets, Hu. reflexivity.
Qed.

Lemma destroyUniverse_without_universe_is_noop_witness :
  m_universe fresh_engine = None /\
  destroyUniverse false fresh_engine = Ok tt fresh_engine [].
Proof.
  split.
  - reflexivity.
  - apply (destroyUniverse_without_universe_is_noop fresh_engine). reflexivity.
Defined.

(** With assertions compiled in, the same call stops at the assertion. *)
Lemma destroyUniverse_without_universe_asserts (e : EngineImpl) :
  m_universe e = None ->
  destroyUniverse true e = Crash AssertionFailed.
Proof.
  intros Hu. unfold destroyUniverse.
  rewrite bind_gets, Hu. reflexivity.
Qed.

(** ** Frame update *)

(** Read a field through the setters. *)
Ltac fields :=
  cbn [m_allocator m_renderer m_plugin_manager m_universe m_hierarchy m_scenes
       m_timer m_fps_timer m_fps_frame m_fps m_last_time_delta
       set_allocator set_plugin_manager set_universe set_hierarchy set_scenes
       set_timer set_fps_timer set_fps_frame set_fps set_last_time_delta
       getFPS getLastTimeDelta Timer_tick tick_count elapsed_at fst snd].

Lemma frame_delta_forced (m d : float) e :
  Float32.ge d (Float32.of_int 0) = true ->
  frame_delta m d e
  = Ok (Float32.mul d m)
      (set_fps_timer (snd (Timer_tick (m_fps_timer e)))
        (set_fps (if Float32.eqb (Float32.mul d m) (Float32.of_int 0)
                  then Float32.of_int 0
                  else Float32.div Float32.one (Float32.mul d m))
          (set_fps_frame 0 e)))
      [].
Proof. intros Hd. unfold frame_delta. rewrite Hd. reflexivity. Qed.

Lemma frame_delta_live (m d : float) e :
  Float32.ge d (Float32.of_int 0) = false ->
  frame_delta m d e
  = Ok (Float32.mul (elapsed_at (m_timer e) (tick_count (m_timer e))) m)
      (set_timer (snd (Timer_tick (m_timer e)))
        (if wrap_int32 (m_fps_frame e + 1) =? 30 then
           set_fps_frame 0
             (set_fps (Float32.div (Float32.of_int 30)
                         (elapsed_at (m_fps_timer e) (tick_count (m_fps_timer e))))
               (set_fps_timer (snd (Timer_tick (m_fps_timer e)))
                 (set_fps_frame (wrap_int32 (m_fps_frame e + 1)) e)))
         else set_fps_frame (wrap_int32 (m_fps_frame e + 1)) e))
      [].
Proof.
  intros Hd. unfold frame_delta. rewrite Hd.
  rewrite bind_modify, bind_gets. cbn [m_fps_frame set_fps_frame].
  destruct (wrap_int32 (m_fps_frame e + 1) =? 30); reflexivity.
Qed.

Lemma frame_delta_returns (m d : float) e :
  exists dt e1, frame_delta m d e = Ok dt e1 [] /\
    m_scenes e1 = m_scenes e /\ m_renderer e1 = m_renderer e.
Proof.
  destruct (Float32.ge d (Float32.of_int 0)) eqn:Hd.
  - eexists _, _. split; [apply frame_delta_forced; exact Hd |]. split; reflexivity.
  - eexists _, _. split; [apply frame_delta_live; exact Hd |].
    destruct (wrap_int32 (m_fps_frame e + 1) =? 30); split; reflexivity.
Qed.

Lemma dispatch_spec (is_game_running : bool) (dt : float) e :
  dispatch is_game_running dt e = Ok tt e (dispatched is_game_running dt e).
Proof.
  unfold dispatch, dispatched. destruct is_game_running.
  - unfold updateGame, scenes_size. rewrite bind_gets.
    rewrite (bind_Ok _ _ e tt e (map (fun s => EvSceneUpdate s dt) (m_scenes e))).
    + reflexivity.
    + rewrite <- flat_map_singleton.
      exact (for_range_scenes e (fun s => call (EvSceneUpdate s dt))
               (fun s => [EvSceneUpdate s dt]) (fun s => eq_refl) (m_scenes e) []
               eq_refl).
  - unfold scenes_size. rewrite bind_gets.
    rewrite <- (flat_map_filter (owned_by_renderer e) (fun s => EvSceneUpdate s dt)).
    refine (for_range_scenes e
             (fun s => r <- gets m_renderer ;;
                       if Pos.eqb (getPlugin s) r then call (EvSceneUpdate s dt) else ret tt)
             (fun s => if owned_by_renderer e s then [EvSceneUpdate s dt] else [])
             _ (m_scenes e) [] eq_refl).
    intros s. rewrite bind_gets. unfold owned_by_renderer.
    destruct (Pos.eqb (getPlugin s) (m_renderer e)); reflexivity.
Qed.

Lemma update_spec (is_game_running : bool) (m d dt : float) e e1 :
  frame_delta m d e = Ok dt e1 [] ->
  update is_game_running m d e
  = Ok tt (set_last_time_delta dt e1)
      (dispatched is_game_running dt (set_last_time_delta dt e1)
       ++ [EvUpdateAsyncTransactions]).
Proof.
  intros Hf. unfold update.
  rewrite (bind_silent _ _ _ _ _ Hf), bind_modify.
  rewrite (bind_Ok _ _ _ _ _ _ (dispatch_spec _ _ _)). reflexivity.
Qed.

(** [update] always returns. *)
Lemma update_returns (is_game_running : bool) (m d : float) e :
  exists e' calls, update is_game_running m d e = Ok tt e' calls.
Proof.
  destruct (frame_delta_returns m d e) as (dt & e1 & Hf & _).
  eexists _, _. apply (update_spec _ _ _ _ _ _ Hf).
Qed.

Lemma lt_zero_not_ge (d : float) :
  Float32.lt d (Float32.of_int 0) = true -> Float32.ge d (Float32.of_int 0) = false.
Proof.
  unfold Float32.lt, Float32.ge, SFltb, SFleb. cbn.
  destruct d as [s | s | | s mant ex]; cbn; try discriminate;
    destruct s; cbn; intros H; try discriminate; reflexivity.
Qed.

(** C3. For every call update(isGameRunning, m, -1), with dt the frame
    timer's reading times m: when the game is running, dt goes to every
    scene in registration order, then to the plugin manager, then to the
    input system; when it is not, dt goes to exactly the scenes whose
    owning plugin is the cached renderer (pointer identity), in registry
    order, and to nothing else: not to any other scene, the plugin manager
    or the input system.  Either way the call then drains the file
    system's asynchronous transactions, and returns. *)
Theorem update_dispatch_order (is_game_running : bool) (m : float) (e : EngineImpl) :
  let dt := Float32.mul (elapsed_at (m_timer e) (tick_count (m_timer e))) m in
  exists e',
    update is_game_running m (Float32.of_int (-1)) e
    = Ok tt e'
        ((if is_game_running then
            map (fun s => EvSceneUpdate s dt) (m_scenes e)
            ++ [EvPluginManagerUpdate dt; EvInputSystemUpdate dt]
          else
            map (fun s => EvSceneUpdate s dt)
                (filter (fun s => Pos.eqb (getPlugin s) (m_renderer e)) (m_scenes e)))
         ++ [EvUpdateAsyncTransactions]) /\
    m_last_time_delta e' = dt.
Proof.
  cbv zeta.
  assert (Hlive : Float32.ge (Float32.of_int (-1)) (Float32.of_int 0) = false)
    by reflexivity.
  pose proof (frame_delta_live m _ e Hlive) as Hf.
  match type of Hf with
  | _ = Ok ?dt ?e1 _ => exists (set_last_time_delta dt e1)
  end.
  rewrite (update_spec _ _ _ _ _ _ Hf). split; [| reflexivity].
  unfold dispatched, owned_by_renderer.
  destruct (wrap_int32 (m_fps_frame e + 1) =? 30); reflexivity.
Qed.

(** C6. For every call update(_, m, d) in forced mode (d >= 0): the call
    returns; the cached last-frame delta becomes d * m; the cached fps
    becomes 0 if d * m == 0 and 1 / (d * m) otherwise; the fps-sample
    counter is reset to 0; the fps-sample timer is ticked once and the
    frame timer is not.  In particular update(_, 2.0f, 0.1f) leaves
    dt = 0.2f and fps = 5.0f, exactly. *)
Theorem update_forced_mode (is_game_running : bool) (m d : float) (e : EngineImpl) :
  Float32.ge d (Float32.of_int 0) = true ->
  exists e' calls,
    update is_game_running m d e = Ok tt e' calls /\
    getLastTimeDelta e' = Float32.mul d m /\
    getFPS e' = (if Float32.eqb (Float32.mul d m) (Float32.of_int 0)
                 then Float32.of_int 0
                 else Float32.div (Float32.of_int 1) (Float32.mul d m)) /\
    m_fps_frame e' = 0 /\
    tick_count (m_fps_timer e') = S (tick_count (m_fps_timer e)) /\
    m_timer e' = m_timer e /\
    (m = Float32.of_int 2 -> d = Float32.literal 1 10 ->
     getLastTimeDelta e' = Float32.literal 2 10 /\ getFPS e' = Float32.of_int 5).
Proof.
  intros Hd.
  pose proof (frame_delta_forced m d e Hd) as Hf.
  eexists _, _. split; [apply (update_spec _ _ _ _ _ _ Hf) |].
  repeat (split; [reflexivity |]).
  intros -> ->. split; reflexivity.
Qed.

Lemma update_forced_mode_witness :
  exists e' calls,
    update true (Float32.of_int 2) (Float32.literal 1 10) active_engine
    = Ok tt e' calls /\
    getLastTimeDelta e' = Float32.literal 2 10 /\
    getFPS e' = Float32.of_int 5 /\
    m_fps_frame e' = 0.
Proof.
  destruct (update_forced_mode true (Float32.of_int 2) (Float32.literal 1 10)
              active_engine eq_refl)
    as (e' & calls & Hrun & _ & _ & Hframe & _ & _ & Hexact).
  exists e', calls.
  destruct (Hexact eq_refl eq_refl) as [Hdt Hfps].
  repeat split; assumption.
Defined.

(** One live-mode call, counted from a sample counter within its range. *)
Lemma update_live_step (is_game_running : bool) (m d : float) e :
  Float32.ge d (Float32.of_int 0) = false ->
  0 <= m_fps_frame e < 30 ->
  exists e1 calls,
    update is_game_running m d e = Ok tt e1 calls /\
    m_fps_frame e1 = (m_fps_frame e + 1) mod 30 /\
    Z.of_nat (tick_count (m_fps_timer e1))
    = Z.of_nat (tick_count (m_fps_timer e)) + (m_fps_frame e + 1) / 30 /\
    elapsed_at (m_fps_timer e1) = elapsed_at (m_fps_timer e) /\
    m_fps e1 = (if (m_fps_frame e + 1) / 30 =? 0 then m_fps e
                else Float32.div (Float32.of_int 30)
                       (elapsed_at (m_fps_timer e) (tick_count (m_fps_timer e)))).
Proof.
  intros Hd Hk.
  pose proof (frame_delta_live m d e Hd) as Hf.
  eexists _, _. split; [apply (update_spec _ _ _ _ _ _ Hf) |].
  assert (Hw : wrap_int32 (m_fps_frame e + 1) = m_fps_frame e + 1).
  { unfold wrap_int32. rewrite Z.mod_small; lia. }
  rewrite Hw.
  destruct (Z.eqb_spec (m_fps_frame e + 1) 30) as [H30 | H30].
  - fields. rewrite H30, Nat2Z.inj_succ.
    change (30 mod 30) with 0. change (30 / 30) with 1.
    repeat split; try reflexivity; lia.
  - fields. rewrite Z.mod_small, Z.div_small by lia.
    repeat split; try reflexivity; lia.
Qed.

(** The sample counter stays within 0..29: the constructor sets it to 0 and
    every [update], forced or live, keeps it there. *)
Lemma Engine_create_initial allocator pm renderer rc ic timer fps_timer dt0 e :
  Engine_create allocator pm renderer rc ic timer fps_timer dt0 = Some e ->
  NoUniverse e /\ m_fps_frame e = 0 /\ m_fps e = Float32.of_int 0.
Proof.
  unfold Engine_create.
  destruct pm; [| discriminate]. destruct renderer; [| discriminate].
  destruct rc; [| discriminate]. destruct ic; [| discriminate].
  cbn [negb]. intros H. inversion H; subst. repeat split.
Qed.

Lemma update_keeps_fps_frame_in_range (is_game_running : bool) (m d : float) e e' calls :
  0 <= m_fps_frame e < 30 ->
  update is_game_running m d e = Ok tt e' calls ->
  0 <= m_fps_frame e' < 30.
Proof.
  intros Hk Hrun.
  destruct (Float32.ge d (Float32.of_int 0)) eqn:Hd.
  - rewrite (update_spec _ _ _ _ _ _ (frame_delta_forced m d e Hd)) in Hrun.
    inversion Hrun; subst. fields. lia.
  - destruct (update_live_step is_game_running m d e Hd Hk)
      as (e1 & c1 & Hrun1 & Hf1 & _).
    rewrite Hrun1 in Hrun. inversion Hrun; subst.
    rewrite Hf1. apply Z.mod_pos_bound. lia.
Qed.

(** C7. In live mode (forcedDelta < 0) the cached fps is resampled exactly
    once every 30 consecutive calls and is otherwise left alone.  After any
    run of live-mode calls, started with the sample counter at k (within
    its range 0..29) and n the sum of k and the number of calls: the run
    returns; the counter stands at n mod 30; the fps-sample timer has been
    ticked n / 30 times, once per resampling; and the cached fps is the
    value before the run if no resampling fell into it, and otherwise 30
    divided by the elapsed time the fps-sample timer reported at the last
    resampling. *)
Theorem live_fps_resampled_every_30_calls
    (args : list (bool * float * float)) (e : EngineImpl) :
  Forall (fun a => Float32.lt (snd a) (Float32.of_int 0) = true) args ->
  0 <= m_fps_frame e < 30 ->
  exists e' calls,
    update_each args e = Ok tt e' calls /\
    m_fps_frame e' = (m_fps_frame e + Z.of_nat (length args)) mod 30 /\
    Z.of_nat (tick_count (m_fps_timer e'))
    = Z.of_nat (tick_count (m_fps_timer e))
      + (m_fps_frame e + Z.of_nat (length args)) / 30 /\
    elapsed_at (m_fps_timer e') = elapsed_at (m_fps_timer e) /\
    getFPS e' = (if (m_fps_frame e + Z.of_nat (length args)) / 30 =? 0 then getFPS e
                 else Float32.div (Float32.of_int 30)
                        (elapsed_at (m_fps_timer e)
                           (tick_count (m_fps_timer e') - 1)%nat)).
Proof.
  revert e. induction args as [|[[running m] d] rest IH]; intros e Hlive Hk.
  - exists e, []. cbn [length Z.of_nat update_each].
    rewrite Z.add_0_r, Z.mod_small, Z.div_small by lia.
    repeat split. lia.
  - inversion Hlive as [|a l Hd Hrest]; subst. cbn [snd] in Hd.
    destruct (update_live_step running m d e (lt_zero_not_ge d Hd) Hk)
      as (e1 & c1 & Hrun1 & Hf1 & Ht1 & He1 & Hfps1).
    assert (Hk1 : 0 <= m_fps_frame e1 < 30)
      by (rewrite Hf1; apply Z.mod_pos_bound; lia).
    destruct (IH e1 Hrest Hk1) as (e' & c' & Hrun & Hf & Ht & He & Hfps).
    exists e', (c1 ++ c').
    split.
    { cbn [update_each]. rewrite (bind_Ok _ _ _ _ _ _ Hrun1), Hrun. reflexivity. }
    cbn [length]. rewrite Nat2Z.inj_succ.
    unfold getFPS in *.
    rewrite Hf1 in Hf, Ht, Hfps.
    split; [| split; [| split]].
    + rewrite Hf, Zplus_mod_idemp_l. f_equal. lia.
    + rewrite Ht, Ht1.
      assert ((m_fps_frame e + Z.succ (Z.of_nat (length rest))) / 30
              = (m_fps_frame e + 1) / 30
                + ((m_fps_frame e + 1) mod 30 + Z.of_nat (length rest)) / 30) as ->;
        [| lia].
      Z.div_mod_to_equations. lia.
    + rewrite He, He1. reflexivity.
    + rewrite Hfps, Hfps1, He1.
      destruct (Z.eqb_spec ((m_fps_frame e + 1) / 30) 0) as [Hq1 | Hq1];
      destruct (Z.eqb_spec (((m_fps_frame e + 1) mod 30
                             + Z.of_nat (length rest)) / 30) 0) as [Hq2 | Hq2];
      destruct (Z.eqb_spec ((m_fps_frame e + Z.succ (Z.of_nat (length rest))) / 30) 0)
        as [Hq | Hq]; try reflexivity.
      all: try (exfalso; revert Hq1 Hq2 Hq; Z.div_mod_to_equations; lia).
      f_equal. f_equal.
      assert (Z.of_nat (tick_count (m_fps_timer e'))
              = Z.of_nat (tick_count (m_fps_timer e)) + 1); [| lia].
      rewrite Ht, Ht1. revert Hq1 Hq2. Z.div_mod_to_equations. lia.
Qed.

Lemma live_fps_resampled_every_30_calls_witness :
  exists e' calls,
    update_each (repeat (true, Float32.of_int 1, Float32.of_int (-1)) 30) fresh_engine
    = Ok tt e' calls /\
    m_fps_frame e' = 0 /\
    tick_count (m_fps_timer e') = 1%nat /\
    getFPS e' = Float32.div (Float32.of_int 30) (Float32.literal 1 60).
Proof.
  destruct (live_fps_resampled_every_30_calls
              (repeat (true, Float32.of_int 1, Float32.of_int (-1)) 30) fresh_engine)
    as (e' & calls & Hrun & Hframe & Hticks & _ & Hfps).
  - repeat constructor.
  - cbn. lia.
  - exists e', calls. split; [exact Hrun |].
    split; [exact Hframe |].
    split; [cbn in Hticks; lia | exact Hfps].
Defined.

(** ** Byte images of integers *)

Lemma Z_of_byte_of_Z (z : Z) : Z_of_byte (byte_of_Z z) = z mod 256.
Proof.
  unfold Z_of_byte, byte_of_Z.
  assert (Hr : 0 <= z mod 256 < 256) by (apply Z.mod_pos_bound; lia).
  destruct (Byte.of_N (Z.to_N (z mod 256))) as [b|] eqn:Hb.
  - rewrite (Byte.to_of_N _ Hb). apply Z2N.id. lia.
  - apply Byte.of_N_None_iff in Hb. lia.
Qed.

Lemma length_le_bytes (n : nat) : forall z, length (le_bytes n z) = n.
Proof. induction n as [|n IH]; intros z; cbn; [reflexivity | rewrite IH; reflexivity]. Qed.

Lemma le_value_le_bytes (n : nat) : forall z,
  le_value (le_bytes n z) = z mod 2 ^ (8 * Z.of_nat n).
Proof.
  induction n as [|n IH]; intros z.
  - cbn. rewrite Z.mod_1_r. reflexivity.
  - cbn [le_bytes le_value]. rewrite Z_of_byte_of_Z, IH.
    replace (8 * Z.of_nat (S n)) with (8 + 8 * Z.of_nat n) by lia.
    rewrite Z.pow_add_r by lia. change (2 ^ 8) with 256.
    rewrite Z.rem_mul_r by lia. reflexivity.
Qed.

Lemma to_int32_of_pattern (v : Z) :
  - 2 ^ 31 <= v < 2 ^ 31 -> to_int32 (v mod 2 ^ 32) = v.
Proof.
  intros Hv. unfold to_int32.
  destruct (Z.ltb_spec (v mod 2 ^ 32) (2 ^ 31)) as [Hlt | Hge];
    revert Hlt || revert Hge; Z.div_mod_to_equations; lia.
Qed.

(** What the writer lays down, the reader takes up. *)
Lemma header_of_bytes_header_bytes (h : SerializedEngineHeader) (rest : list byte) :
  0 <= m_magic h < 2 ^ 32 ->
  - 2 ^ 31 <= m_version h < 2 ^ 31 ->
  0 <= m_reserved h < 2 ^ 32 ->
  header_of_bytes (header_bytes h ++ rest) = h.
Proof.
  intros Hm Hv Hr. destruct h as [mg vs rs]. cbn [m_magic m_version m_reserved] in *.
  unfold header_of_bytes, header_bytes. cbn [m_magic m_version m_reserved].
  rewrite <- !app_assoc.
  assert (H4 : forall z l, firstn 4 (le_bytes 4 z ++ l) = le_bytes 4 z) by reflexivity.
  assert (S4 : forall z l, skipn 4 (le_bytes 4 z ++ l) = l) by reflexivity.
  assert (S8 : forall z1 z2 l, skipn 8 (le_bytes 4 z1 ++ le_bytes 4 z2 ++ l) = l)
    by reflexivity.
  rewrite S8, S4, !H4, !le_value_le_bytes.
  change (8 * Z.of_nat 4) with 32.
  rewrite to_int32_of_pattern, !Z.mod_small by lia. reflexivity.
Qed.

Lemma length_header_bytes (h : SerializedEngineHeader) :
  length (header_bytes h) = sizeof_SerializedEngineHeader.
Proof. reflexivity. Qed.

(** ** Serialization *)

Section SerializationProperties.
Context {codec : Codec}.

Lemma for_range_with_scenes {S : Type} e (k : IScene -> S -> M S)
    (step : IScene -> S -> S) (g : IScene -> Event) :
  (forall sc s, k sc s e = Ok (step sc s) e [g sc]) ->
  forall l2 l1 s, m_scenes e = l1 ++ l2 ->
  for_range_with (length l1) (length l2) (fun i s => sc <- scene_at i ;; k sc s) s e
  = Ok (fold_left (fun s sc => step sc s) l2 s) e (map g l2).
Proof.
  intros Hk. induction l2 as [|x l2 IH]; intros l1 s Hs.
  - reflexivity.
  - cbn [length for_range_with fold_left map].
    rewrite (bind_Ok _ _ e (step x s) e [g x]).
    + specialize (IH (l1 ++ [x]) (step x s)).
      rewrite length_app, Nat.add_1_r in IH. rewrite IH; [reflexivity |].
      rewrite <- app_assoc. exact Hs.
    + rewrite (bind_scene_at _ e _ x); [apply Hk |].
      rewrite Hs. apply nth_error_middle.
Qed.

Lemma fold_left_map_ObjScene {S : Type} (f : S -> Object -> S) (l : list IScene) :
  forall s, fold_left (fun s sc => f s (ObjScene sc)) l s
            = fold_left f (map ObjScene l) s.
Proof. induction l as [|x l IH]; intros s; cbn; [reflexivity | apply IH]. Qed.

Lemma fold_left_write (objs : list Object) : forall (b : OutputBlob),
  fold_left (fun b o => OutputBlob_write (serialized_form o) b) objs b
  = b ++ flat_map serialized_form objs.
Proof.
  induction objs as [|o objs IH]; intros b; cbn [fold_left flat_map].
  - rewrite app_nil_r. reflexivity.
  - rewrite IH. unfold OutputBlob_write. rewrite <- app_assoc. reflexivity.
Qed.

Lemma window_of_stream (prefix body : list byte) :
  firstn (Z.to_nat (getSize (prefix ++ body) - getSize prefix))
         (skipn (Z.to_nat (getSize prefix)) (prefix ++ body))
  = body.
Proof.
  unfold getSize. rewrite length_app, Nat2Z.inj_add.
  replace (Z.of_nat (length prefix) + Z.of_nat (length body) - Z.of_nat (length prefix))
    with (Z.of_nat (length body)) by lia.
  rewrite !Nat2Z.id, skipn_app, skipn_all, Nat.sub_diag. cbn [skipn app].
  apply firstn_all.
Qed.

(** [serialize] on an active universe: the stream, the calls, the checksum. *)
Lemma serialize_spec (serializer : OutputBlob) e u h :
  m_universe e = Some u ->
  m_hierarchy e = Some h ->
  serialize serializer e
  = Ok (crc32 (flat_map serialized_form (stream_objects e u h)),
        serializer ++ header_bytes latest_header ++ serialized_form ObjPathManager
        ++ flat_map serialized_form (stream_objects e u h))
      e
      (map EvSerialize (ObjPathManager :: stream_objects e u h)).
Proof.
  intros Hu Hh. unfold serialize.
  erewrite bind_Ok by reflexivity.
  rewrite bind_gets, Hu. cbn [deref]. rewrite bind_ret.
  erewrite bind_Ok by reflexivity.
  rewrite bind_gets, Hh. cbn [deref]. rewrite bind_ret.
  erewrite bind_Ok by reflexivity.
  rewrite bind_gets.
  erewrite bind_Ok by reflexivity.
  erewrite bind_Ok by reflexivity.
  unfold scenes_size. rewrite bind_gets.
  erewrite bind_Ok
    by exact (for_range_with_scenes e
                (fun sc s => call_serialize (ObjScene sc) s)
                (fun sc s => OutputBlob_write (serialized_form (ObjScene sc)) s)
                (fun sc => EvSerialize (ObjScene sc))
                (fun sc s => eq_refl) (m_scenes e) [] _ eq_refl).
  cbn [ret app].
  rewrite (fold_left_map_ObjScene
             (fun b o => OutputBlob_write (serialized_form o) b)), fold_left_write.
  unfold write_header, OutputBlob_write.
  set (prefix := (serializer ++ header_bytes latest_header)
                 ++ serialized_form ObjPathManager).
  assert (Hbody :
    ((((prefix ++ serialized_form (ObjUniverse u)) ++ serialized_form (ObjHierarchy h))
       ++ serialized_form (ObjRenderer (m_renderer e)))
      ++ serialized_form ObjPluginManager)
     ++ flat_map serialized_form (map ObjScene (m_scenes e))
    = prefix ++ flat_map serialized_form (stream_objects e u h)).
  { unfold stream_objects. cbn [app flat_map]. rewrite <- !app_assoc. reflexivity. }
  fold latest_header. fold prefix. rewrite Hbody, window_of_stream.
  unfold prefix, stream_objects. cbn [map app].
  rewrite app_nil_r, map_map, <- !app_assoc. reflexivity.
Qed.
End SerializationProperties.

Section SerializationTheorems.
Context {codec : Codec}.

(** C5. On an active universe serialize() writes the header, then the
    path-interning table, then exactly this sequence: the Universe, the
    Hierarchy, the Renderer, the Plugin Manager, then every scene in
    registration order (both as the order of the calls and as the order of
    the bytes in the stream); and it returns the CRC32 of every byte from
    the offset right after the path table to the end of the stream. *)
Theorem serialize_order_and_checksum (serializer : OutputBlob) (e : EngineImpl) (u h : addr) :
  m_universe e = Some u ->
  m_hierarchy e = Some h ->
  let objects :=
    [ObjUniverse u; ObjHierarchy h; ObjRenderer (m_renderer e); ObjPluginManager]
    ++ map ObjScene (m_scenes e) in
  let start := serializer ++ header_bytes latest_header ++ serialized_form ObjPathManager in
  exists crc out,
    serialize serializer e = Ok (crc, out) e (map EvSerialize (ObjPathManager :: objects)) /\
    out = start ++ flat_map serialized_form objects /\
    crc = crc32 (skipn (length start) out).
Proof.
  intros Hu Hh objects start.
  eexists _, _. split; [apply (serialize_spec serializer e u h Hu Hh) |].
  fold (stream_objects e u h). fold objects. unfold start.
  split; [rewrite <- !app_assoc; reflexivity |].
  f_equal.
  replace (serializer ++ header_bytes latest_header ++ serialized_form ObjPathManager
           ++ flat_map serialized_form objects)
    with ((serializer ++ header_bytes latest_header ++ serialized_form ObjPathManager)
          ++ flat_map serialized_form objects)
    by (rewrite <- !app_assoc; reflexivity).
  rewrite skipn_app, skipn_all, Nat.sub_diag. reflexivity.
Qed.

(** [deserialize], case by case. *)
Lemma deserialize_spec (serializer : InputBlob) e :
  let header := fst (read_header serializer) in
  let after := snd (read_header serializer) in
  deserialize serializer e
  = if negb (m_magic header =? SERIALIZED_ENGINE_MAGIC) then
      Ok (false, after) e [EvLogError "engine" "Wrong or corrupted file"]
    else if version_value LATEST <? m_version header then
      Ok (false, after) e [EvLogError "engine" "Unsupported version"]
    else
      match m_universe e, m_hierarchy e with
      | Some u, Some h =>
          Ok (true,
              fold_left (fun s o => deserialize_from o s)
                (ObjPathManager :: stream_objects e u h) after)
            e (map EvDeserialize (ObjPathManager :: stream_objects e u h))
      | _, _ => Crash NullDereference
      end.
Proof.
  cbv zeta. unfold deserialize.
  destruct (read_header serializer) as [header after]. cbn [fst snd].
  destruct (negb (m_magic header =? SERIALIZED_ENGINE_MAGIC)); [reflexivity |].
  destruct (version_value LATEST <? m_version header); [reflexivity |].
  erewrite bind_Ok by reflexivity.
  rewrite bind_gets.
  destruct (m_universe e) as [u|]; [| reflexivity].
  cbn [deref]. rewrite bind_ret.
  erewrite bind_Ok by reflexivity.
  rewrite bind_gets.
  destruct (m_hierarchy e) as [h|]; [| reflexivity].
  cbn [deref]. rewrite bind_ret.
  erewrite bind_Ok by reflexivity.
  rewrite bind_gets.
  erewrite bind_Ok by reflexivity.
  erewrite bind_Ok by reflexivity.
  unfold scenes_size. rewrite bind_gets.
  erewrite bind_Ok
    by exact (for_range_with_scenes e
                (fun sc s => call_deserialize (ObjScene sc) s)
                (fun sc s => deserialize_from (ObjScene sc) s)
                (fun sc => EvDeserialize (ObjScene sc))
                (fun sc s => eq_refl) (m_scenes e) [] _ eq_refl).
  cbn [ret app].
  rewrite (fold_left_map_ObjScene (fun s o => deserialize_from o s)).
  unfold stream_objects. cbn [map app fold_left].
  rewrite app_nil_r, map_map. reflexivity.
Qed.

Lemma deserialize_verdict (serializer : InputBlob) e :
  let header := fst (read_header serializer) in
  verdict (deserialize serializer e)
  = if negb (m_magic header =? SERIALIZED_ENGINE_MAGIC) then Some false
    else if version_value LATEST <? m_version header then Some false
    else if is_some (m_universe e) && is_some (m_hierarchy e) then Some true
    else None.
Proof.
  cbv zeta. rewrite deserialize_spec.
  destruct (negb _); [reflexivity |].
  destruct (_ <? _); [reflexivity |].
  destruct (m_universe e), (m_hierarchy e); reflexivity.
Qed.

(** The cursor after the header read: never more than a header further. *)
Lemma read_header_cursor (serializer : InputBlob) :
  ib_data (snd (read_header serializer)) = ib_data serializer /\
  (ib_pos serializer <= ib_pos (snd (read_header serializer))
   <= ib_pos serializer + sizeof_SerializedEngineHeader)%nat.
Proof.
  unfold read_header, InputBlob_read. cbn [snd].
  destruct (_ <=? _)%nat; cbn [snd ib_data ib_pos]; split; try reflexivity; lia.
Qed.

(** C4. deserialize() returns failure if and only if the magic read from
    the stream differs from the expected magic or the version read exceeds
    the latest one known to the build.  A stream with the right magic and
    any version up to the latest is accepted (on an active universe the
    call returns success).  On a magic mismatch the call returns failure
    having consumed nothing beyond the header: the one read it made is the
    header's, and no collaborator was handed the stream. *)
Theorem deserialize_failure_iff (serializer : InputBlob) (e : EngineImpl) :
  let header := fst (read_header serializer) in
  (verdict (deserialize serializer e) = Some false
   <-> m_magic header <> SERIALIZED_ENGINE_MAGIC
       \/ version_value LATEST < m_version header) /\
  (m_magic header = SERIALIZED_ENGINE_MAGIC ->
   m_version header <= version_value LATEST ->
   is_some (m_universe e) = true -> is_some (m_hierarchy e) = true ->
   verdict (deserialize serializer e) = Some true) /\
  (m_magic header <> SERIALIZED_ENGINE_MAGIC ->
   exists after,
     deserialize serializer e
     = Ok (false, after) e [EvLogError "engine" "Wrong or corrupted file"] /\
     ib_data after = ib_data serializer /\
     (ib_pos after <= ib_pos serializer + sizeof_SerializedEngineHeader)%nat).
Proof.
  cbv zeta. split; [| split].
  - rewrite deserialize_verdict.
    destruct (Z.eqb_spec (m_magic (fst (read_header serializer))) SERIALIZED_ENGINE_MAGIC)
      as [Hm | Hm]; cbn [negb].
    + destruct (Z.ltb_spec (version_value LATEST) (m_version (fst (read_header serializer))))
        as [Hv | Hv].
      * split; [intros _; right; exact Hv | reflexivity].
      * split.
        -- destruct (is_some (m_universe e) && is_some (m_hierarchy e)); discriminate.
        -- intros [H | H]; [contradiction | lia].
    + split; [intros _; left; exact Hm | reflexivity].
  - intros Hm Hv Hu Hh. rewrite deserialize_verdict, Hu, Hh.
    rewrite (proj2 (Z.eqb_eq _ _) Hm), (proj2 (Z.ltb_ge _ _) Hv). reflexivity.
  - intros Hm. exists (snd (read_header serializer)).
    rewrite deserialize_spec, (proj2 (Z.eqb_neq _ _) Hm). cbn [negb].
    split; [reflexivity |].
    destruct (read_header_cursor serializer) as (Hd & _ & Hp).
    split; assumption.
Qed.

(** C9. Whenever deserialize() returns failure, the engine is as it was
    before the call, and the only call made is the error report: neither
    the path manager, the universe, the hierarchy, the renderer, the plugin
    manager nor any scene was asked to deserialize.  Hence whatever state
    the collaborators keep, it is unchanged too. *)
Theorem deserialize_failure_changes_nothing
    (serializer after : InputBlob) (e e' : EngineImpl) (calls : list Event) :
  deserialize serializer e = Ok (false, after) e' calls ->
  e' = e /\
  (exists message, calls = [EvLogError "engine" message]) /\
  (forall (W : Type) (step : Event -> W -> W) (w : W),
     (forall system message w', step (EvLogError system message) w' = w') ->
     run_calls step calls w = w).
Proof.
  rewrite deserialize_spec. cbv zeta.
  assert (Hlog : forall message a,
    Ok (false, a) e [EvLogError "engine" message] = Ok (false, after) e' calls ->
    e' = e /\
    (exists message, calls = [EvLogError "engine" message]) /\
    (forall (W : Type) (step : Event -> W -> W) (w : W),
       (forall system message w', step (EvLogError system message) w' = w') ->
       run_calls step calls w = w)).
  { intros message a H. inversion H; subst.
    split; [reflexivity |]. split; [eexists; reflexivity |].
    intros W step w Hstep. cbn. apply Hstep. }
  destruct (negb _); [apply Hlog |].
  destruct (_ <? _); [apply Hlog |].
  destruct (m_universe e), (m_hierarchy e); discriminate.
Qed.

End SerializationTheorems.

(** The header found at the cursor of a stream that holds twelve bytes there. *)
Lemma read_header_at (pre magic version reserved rest : list byte) :
  length magic = 4%nat -> length version = 4%nat -> length reserved = 4%nat ->
  fst (read_header {| ib_data := pre ++ magic ++ version ++ reserved ++ rest;
                      ib_pos := length pre |})
  = {| m_magic := le_value magic;
       m_version := to_int32 (le_value version);
       m_reserved := le_value reserved |}.
Proof.
  intros Hm Hv Hr.
  destruct magic as [|m0 [|m1 [|m2 [|m3 [|? ?]]]]]; try discriminate Hm.
  destruct version as [|v0 [|v1 [|v2 [|v3 [|? ?]]]]]; try discriminate Hv.
  destruct reserved as [|r0 [|r1 [|r2 [|r3 [|? ?]]]]]; try discriminate Hr.
  unfold read_header, InputBlob_read. cbn [ib_data ib_pos].
  assert (Hfit : (length pre + sizeof_SerializedEngineHeader
                  <=? length (pre ++ [m0; m1; m2; m3] ++ [v0; v1; v2; v3]
                                  ++ [r0; r1; r2; r3] ++ rest))%nat = true).
  { apply Nat.leb_le. rewrite length_app.
    change sizeof_SerializedEngineHeader with 12%nat. simpl. lia. }
  rewrite Hfit. cbn [fst].
  rewrite skipn_app, skipn_all, Nat.sub_diag. reflexivity.
Qed.

(** C8 as stated does not hold: the header the writer emits is twelve
    bytes long, not nine. *)
Lemma serialized_header_is_not_9_bytes :
  length (write_header latest_header []) <> 9%nat.
Proof. cbn. discriminate. Qed.

(** C8, amended.  The serialized header has a fixed 12-byte layout: a
    4-byte magic constant, a 4-byte version and a reserved 4-byte checksum
    slot, in that order.  The writer leaves the reserved slot unpopulated:
    the four bytes serialize() writes there are zero.  The reader never
    inspects it: two streams that differ only in the reserved slot get the
    same answer from deserialize(). *)
Theorem serialized_header_layout {codec : Codec}
    (serializer : OutputBlob) (e : EngineImpl) (u h : addr)
    (pre magic version reserved1 reserved2 rest : list byte) :
  m_universe e = Some u ->
  m_hierarchy e = Some h ->
  length magic = 4%nat -> length version = 4%nat ->
  length reserved1 = 4%nat -> length reserved2 = 4%nat ->
  (forall hd, length (header_bytes hd) = 12%nat /\
              header_bytes hd = le_bytes 4 (m_magic hd) ++ le_bytes 4 (m_version hd)
                                ++ le_bytes 4 (m_reserved hd)) /\
  (exists crc tail calls,
     serialize serializer e
     = Ok (crc, serializer ++ le_bytes 4 SERIALIZED_ENGINE_MAGIC
                ++ le_bytes 4 (version_value LATEST)
                ++ [x00; x00; x00; x00] ++ tail) e calls) /\
  (forall e2,
     verdict (deserialize
                {| ib_data := pre ++ magic ++ version ++ reserved1 ++ rest;
                   ib_pos := length pre |} e2)
     = verdict (deserialize
                  {| ib_data := pre ++ magic ++ version ++ reserved2 ++ rest;
                     ib_pos := length pre |} e2)).
Proof.
  intros Hu Hh Hm Hv Hr1 Hr2. split; [| split].
  - intros hd. split; reflexivity.
  - eexists _, _, _. rewrite (serialize_spec serializer e u h Hu Hh).
    unfold header_bytes. cbn [m_magic m_version m_reserved latest_header].
    rewrite <- !app_assoc. reflexivity.
  - intros e2. rewrite !deserialize_verdict. cbv zeta.
    rewrite !read_header_at by assumption. reflexivity.
Qed.

(** Reading back a header from where it was written. *)
Lemma read_header_of_written (hd : SerializedEngineHeader) (rest : list byte) :
  0 <= m_magic hd < 2 ^ 32 ->
  - 2 ^ 31 <= m_version hd < 2 ^ 31 ->
  0 <= m_reserved hd < 2 ^ 32 ->
  fst (read_header {| ib_data := header_bytes hd ++ rest; ib_pos := 0 |}) = hd.
Proof.
  intros Hm Hv Hr. unfold read_header, InputBlob_read. cbn [ib_data ib_pos].
  assert (Hfit : (0 + sizeof_SerializedEngineHeader
                  <=? length (header_bytes hd ++ rest))%nat = true).
  { apply Nat.leb_le. rewrite length_app, length_header_bytes. lia. }
  rewrite Hfit. cbn [fst skipn].
  rewrite <- (length_header_bytes hd) at 1.
  rewrite firstn_app, firstn_all, Nat.sub_diag. cbn [firstn].
  apply header_of_bytes_header_bytes; assumption.
Qed.

(** X23. A stream written by serialize() into an empty buffer is one that
    deserialize() accepts, on any engine with an active universe and
    whatever the collaborators wrote after the header: the writer's magic
    and version always pass the reader's two checks. *)
Lemma deserialize_accepts_serialized {codec : Codec} (e e2 : EngineImpl) (u h : addr) :
  m_universe e = Some u -> m_hierarchy e = Some h ->
  is_some (m_universe e2) = true -> is_some (m_hierarchy e2) = true ->
  exists crc out calls,
    serialize [] e = Ok (crc, out) e calls /\
    verdict (deserialize {| ib_data := out; ib_pos := 0 |} e2) = Some true.
Proof.
  intros Hu Hh Hu2 Hh2.
  eexists _, _, _. split; [apply (serialize_spec [] e u h Hu Hh) |].
  rewrite deserialize_verdict, Hu2, Hh2. cbv zeta. cbn [app].
  rewrite read_header_of_written
    by (unfold latest_header, SERIALIZED_ENGINE_MAGIC;
        cbn [m_magic m_version m_reserved version_value]; lia).
  reflexivity.
Qed.

(** ** The theorems at work on the sample engine *)

(** What [serialize] writes for the sample engine. *)
Lemma sample_stream_written :
  exists crc calls,
    serialize (codec := sample_codec) [] active_engine
    = Ok (crc, sample_stream) active_engine calls.
Proof. eexists _, _. reflexivity. Qed.

Lemma serialize_order_and_checksum_witness :
  exists crc out,
    serialize (codec := sample_codec) [] active_engine
    = Ok (crc, out) active_engine
        (map EvSerialize
           [ObjPathManager; ObjUniverse 1000%positive; ObjHierarchy 1001%positive;
            ObjRenderer 1%positive;
            ObjPluginManager; ObjScene scene_of_renderer; ObjScene scene_of_physics]) /\
    out = sample_stream /\
    crc = crc32_bytes (skipn 13%nat sample_stream).
Proof.
  destruct (serialize_order_and_checksum (codec := sample_codec) [] active_engine
              1000%positive 1001%positive eq_refl eq_refl)
    as (crc & out & Hrun & Hout & Hcrc).
  exists crc, out. split; [exact Hrun |]. split; [exact Hout |].
  rewrite Hcrc, Hout. reflexivity.
Defined.

Lemma deserialize_failure_iff_witness :
  verdict (deserialize (codec := sample_codec)
             {| ib_data := sample_stream; ib_pos := 0 |} active_engine) = Some true /\
  exists after,
    deserialize (codec := sample_codec)
      {| ib_data := repeat x00 16; ib_pos := 0 |} active_engine
    = Ok (false, after) active_engine [EvLogError "engine" "Wrong or corrupted file"] /\
    ib_data after = repeat x00 16 /\
    (ib_pos after <= 12)%nat.
Proof.
  split.
  - apply (deserialize_failure_iff (codec := sample_codec)
             {| ib_data := sample_stream; ib_pos := 0 |} active_engine);
      reflexivity.
  - apply (deserialize_failure_iff (codec := sample_codec)
             {| ib_data := repeat x00 16; ib_pos := 0 |} active_engine).
    cbn. discriminate.
Defined.

Lemma deserialize_failure_changes_nothing_witness :
  deserialize (codec := sample_codec)
    {| ib_data := repeat x00 16; ib_pos := 0 |} active_engine
  = Ok (false, {| ib_data := repeat x00 16; ib_pos := 12 |}) active_engine
      [EvLogError "engine" "Wrong or corrupted file"] /\
  (active_engine = active_engine /\
   (exists message,
      [EvLogError "engine" "Wrong or corrupted file"] = [EvLogError "engine" message]) /\
   (forall (W : Type) (step : Event -> W -> W) (w : W),
      (forall system message w', step (EvLogError system message) w' = w') ->
      run_calls step [EvLogError "engine" "Wrong or corrupted file"] w = w)).
Proof.
  split.
  - reflexivity.
  - apply (deserialize_failure_changes_nothing (codec := sample_codec)
             {| ib_data := repeat x00 16; ib_pos := 0 |}
             {| ib_data := repeat x00 16; ib_pos := 12 |}
             active_engine active_engine
             [EvLogError "engine" "Wrong or corrupted file"]).
    reflexivity.
Defined.

Lemma serialized_header_layout_witness :
  length (header_bytes latest_header) = 12%nat /\
  verdict (deserialize (codec := sample_codec)
             {| ib_data := le_bytes 4 SERIALIZED_ENGINE_MAGIC ++ le_bytes 4 0
                           ++ [x00; x00; x00; x00] ++ skipn 12%nat sample_stream;
                ib_pos := 0 |} active_engine)
  = verdict (deserialize (codec := sample_codec)
               {| ib_data := le_bytes 4 SERIALIZED_ENGINE_MAGIC ++ le_bytes 4 0
                             ++ [xff; xff; xff; xff] ++ skipn 12%nat sample_stream;
                  ib_pos := 0 |} active_engine).
Proof.
  destruct (serialized_header_layout (codec := sample_codec) [] active_engine
              1000%positive 1001%positive
              [] (le_bytes 4 SERIALIZED_ENGINE_MAGIC) (le_bytes 4 0)
              [x00; x00; x00; x00] [xff; xff; xff; xff] (skipn 12%nat sample_stream)
              eq_refl eq_refl eq_refl eq_refl eq_refl eq_refl)
    as (Hsize & _ & Hreader).
  split.
  - apply Hsize.
  - apply (Hreader active_engine).
Defined.

(** * Further properties *)

(** ** The registry across the universe lifecycle *)

Lemma created_by_app (a b : list Event) :
  created_by (a ++ b) = created_by a ++ created_by b.
Proof.
  induction a as [|ev a IH]; [reflexivity |].
  destruct ev as [p u [s|] | | | | | | | | | | |]; cbn; rewrite IH; reflexivity.
Qed.

Lemma destroyed_by_app (a b : list Event) :
  destroyed_by (a ++ b) = destroyed_by a ++ destroyed_by b.
Proof.
  induction a as [|ev a IH]; [reflexivity |].
  destruct ev; cbn; rewrite IH; reflexivity.
Qed.

Lemma neutral_created_by (calls : list Event) :
  forallb lifecycle_neutral calls = true -> created_by calls = [].
Proof.
  induction calls as [|ev calls IH]; [reflexivity |].
  cbn [forallb]. intros H. apply andb_true_iff in H as [Hev Hrest].
  destruct ev; try discriminate Hev; cbn; apply IH; exact Hrest.
Qed.

Lemma neutral_destroyed_by (calls : list Event) :
  forallb lifecycle_neutral calls = true -> destroyed_by calls = [].
Proof.
  induction calls as [|ev calls IH]; [reflexivity |].
  cbn [forallb]. intros H. apply andb_true_iff in H as [Hev Hrest].
  destruct ev; try discriminate Hev; cbn; apply IH; exact Hrest.
Qed.

Lemma forallb_map_const {A} (f : A -> Event) (l : list A) :
  (forall x, lifecycle_neutral (f x) = true) ->
  forallb lifecycle_neutral (map f l) = true.
Proof.
  intros Hf. induction l as [|x l IH]; [reflexivity |].
  cbn. rewrite Hf, IH. reflexivity.
Qed.

Lemma length_scenes_of (u : addr) : forall plugins,
  (length (scenes_of plugins u) <= length plugins)%nat.
Proof.
  unfold scenes_of. induction plugins as [|p plugins IH]; [apply Nat.le_refl |].
  cbn [flat_map]. rewrite length_app.
  destruct (createScene p u); cbn [length]; lia.
Qed.

Lemma In_scenes_of (u : addr) (s : IScene) : forall plugins,
  In s (scenes_of plugins u) <-> exists p, In p plugins /\ createScene p u = Some s.
Proof.
  unfold scenes_of. intros plugins. rewrite in_flat_map. split.
  - intros (p & Hp & Hs). exists p. split; [exact Hp |].
    destruct (createScene p u) as [s'|]; [| contradiction].
    destruct Hs as [-> | []]. reflexivity.
  - intros (p & Hp & Hs). exists p. split; [exact Hp |].
    rewrite Hs. left. reflexivity.
Qed.

Lemma destroyUniverse_without_universe_is_noop_aux (e : EngineImpl) :
  m_universe e = None -> destroyUniverse false e = Ok tt e [].
Proof.
  intros Hu. unfold destroyUniverse. rewrite bind_gets, Hu. reflexivity.
Qed.

(** X1. createUniverse() on an engine without a universe returns the
    universe that getUniverse() reports from then on, pairs it with a
    hierarchy, and leaves in the registry exactly the scenes the plugins
    returned, in plugin registration order: a plugin that returns null
    contributes nothing, so the registry is never longer than the plugin
    list, and a scene is registered if and only if some registered plugin
    returned it for this universe. *)
Theorem createUniverse_registers_scenes (e : EngineImpl) :
  NoUniverse e ->
  exists u e1 calls,
    createUniverse e = Ok u e1 calls /\
    getUniverse e1 = Some u /\
    is_some (getHierarchy e1) = true /\
    getScenes e1 = scenes_of (getPlugins (m_plugin_manager e)) u /\
    (length (getScenes e1) <= length (getPlugins (m_plugin_manager e)))%nat /\
    (forall s, In s (getScenes e1) <->
               exists p, In p (getPlugins (m_plugin_manager e)) /\
                         createScene p u = Some s).
Proof.
  intros (_ & _ & Hs).
  pose proof (createUniverse_spec e) as Hc. cbv zeta in Hc.
  eexists _, _, _. split; [exact Hc |].
  unfold getUniverse, getHierarchy, getScenes. fields. rewrite Hs. cbn [app].
  split; [reflexivity |]. split; [reflexivity |]. split; [reflexivity |].
  split; [apply length_scenes_of |].
  intros s. apply In_scenes_of.
Qed.

Lemma createUniverse_registers_scenes_witness :
  exists u e1 calls,
    createUniverse fresh_engine = Ok u e1 calls /\
    getUniverse e1 = Some u /\
    is_some (getHierarchy e1) = true /\
    getScenes e1 = [scene_of_renderer; scene_of_physics].
Proof.
  destruct (createUniverse_registers_scenes fresh_engine)
    as (u & e1 & calls & Hrun & Hu & Hh & Hs & _).
  - repeat split.
  - exists u, e1, calls. repeat split; assumption.
Defined.

(** X2. createUniverse() has no guard against an active universe.  Called
    in any state it destroys nothing: it appends the new scenes to
    whatever the registry held and overwrites the universe and hierarchy
    pointers.  The destroyUniverse() that follows destroys every scene of
    the registry, old and new, newest first, but the only universe it
    deletes and the only hierarchy it destroys are the ones just created.
    So a universe that was active before, at an address other than the
    one the allocator hands out next, is never deleted. *)
Theorem createUniverse_on_active_universe_leaks (assertions : bool) (e : EngineImpl) :
  exists u h e1 c1 e2 c2,
    createUniverse e = Ok u e1 c1 /\
    getScenes e1 = getScenes e ++ scenes_of (getPlugins (m_plugin_manager e)) u /\
    getUniverse e1 = Some u /\ getHierarchy e1 = Some h /\
    forallb (fun ev => match ev with
                       | EvDestroyScene _ _ | EvHierarchyDestroy _
                       | EvDeleteUniverse _ => false
                       | _ => true
                       end) c1 = true /\
    destroyUniverse assertions e1 = Ok tt e2 c2 /\
    destroyed_by c2
    = rev (scene_pairs (scenes_of (getPlugins (m_plugin_manager e)) u))
      ++ rev (scene_pairs (getScenes e)) /\
    (forall x, In (EvDeleteUniverse x) (c1 ++ c2) -> x = u) /\
    (forall x, In (EvHierarchyDestroy x) (c1 ++ c2) -> x = Some h) /\
    (forall u0, m_universe e = Some u0 -> u0 <> next_free (m_allocator e) ->
                ~ In (EvDeleteUniverse u0) (c1 ++ c2)).
Proof.
  pose proof (createUniverse_spec e) as Hc. cbv zeta in Hc.
  eexists _, _, _, _, _, _. split; [exact Hc |].
  split; [reflexivity |]. split; [reflexivity |]. split; [reflexivity |].
  assert (Hquiet : forall plugins u,
    forallb (fun ev => match ev with
                       | EvDestroyScene _ _ | EvHierarchyDestroy _
                       | EvDeleteUniverse _ => false
                       | _ => true
                       end)
      (map (fun p => EvCreateScene (plugin_addr p) u (createScene p u)) plugins) = true).
  { intros plugins u. induction plugins as [|p plugins IH]; [reflexivity | exact IH]. }
  split; [cbn [forallb]; apply Hquiet |].
  split; [apply destroyUniverse_spec; reflexivity |].
  split.
  - rewrite destroyed_by_hooks. cbn [destroyed_by]. rewrite app_nil_r.
    fields. unfold getScenes, scene_pairs. rewrite <- map_rev, rev_app_distr, map_app.
    rewrite <- !map_rev. reflexivity.
  - match goal with
    | |- (forall x, In (EvDeleteUniverse x) ?l -> x = ?v) /\ _ =>
        assert (Hdel : forall x, In (EvDeleteUniverse x) l -> x = v)
    end.
    { intros x Hin. apply in_app_or in Hin as [Hin | Hin].
      - destruct Hin as [Hin | Hin]; [discriminate |].
        apply in_map_iff in Hin as (p & Hp & _). discriminate.
      - apply in_app_or in Hin as [Hin | Hin].
        + apply in_map_iff in Hin as (s & Hs & _). discriminate.
        + destruct Hin as [Hin | [Hin | []]]; [discriminate |].
          inversion Hin. reflexivity. }
    split; [exact Hdel |]. split.
    + intros x Hin. apply in_app_or in Hin as [Hin | Hin].
      * destruct Hin as [Hin | Hin]; [discriminate |].
        apply in_map_iff in Hin as (p & Hp & _). discriminate.
      * apply in_app_or in Hin as [Hin | Hin].
        -- apply in_map_iff in Hin as (s & Hs & _). discriminate.
        -- destruct Hin as [Hin | [Hin | []]]; [| discriminate].
           inversion Hin. reflexivity.
    + intros u0 _ Hfresh Hin. apply Hfresh. apply (Hdel u0 Hin).
Qed.

Lemma createUniverse_on_active_universe_leaks_witness :
  exists u e1 c1 e2 c2,
    createUniverse active_engine = Ok u e1 c1 /\
    destroyUniverse true e1 = Ok tt e2 c2 /\
    getUniverse active_engine = Some 1000%positive /\
    u = 1002%positive /\
    ~ In (EvDeleteUniverse 1000%positive) (c1 ++ c2).
Proof.
  destruct (createUniverse_on_active_universe_leaks true active_engine)
    as (u & h & e1 & c1 & e2 & c2 & Hc & _ & Hu & _ & _ & Hd & _ & _ & _ & Hold).
  exists u, e1, c1, e2, c2.
  split; [exact Hc |]. split; [exact Hd |]. split; [reflexivity |].
  split.
  - pose proof (createUniverse_spec active_engine) as Hspec. cbv zeta in Hspec.
    rewrite Hspec in Hc. inversion Hc. reflexivity.
  - apply (Hold 1000%positive); [reflexivity | discriminate].
Defined.

(** X3. destroyUniverse() does not work twice in a row.  With assertions
    compiled out the second call changes nothing and calls nothing, so two
    calls amount to one; with assertions compiled in the second call stops
    at the assertion, whatever the state before the first. *)
Theorem destroyUniverse_twice (assertions : bool) (e : EngineImpl) :
  (destroyUniverse false ;; destroyUniverse false) e = destroyUniverse false e /\
  (destroyUniverse assertions ;; destroyUniverse true) e = Crash AssertionFailed.
Proof.
  destruct (m_universe e) as [u|] eqn:Hu.
  - split.
    + rewrite (bind_Ok _ _ _ _ _ _ (destroyUniverse_spec false e u Hu)).
      rewrite destroyUniverse_without_universe_is_noop_aux by reflexivity.
      rewrite app_nil_r. symmetry. apply destroyUniverse_spec. exact Hu.
    + rewrite (bind_Ok _ _ _ _ _ _ (destroyUniverse_spec assertions e u Hu)).
      rewrite destroyUniverse_without_universe_asserts by reflexivity.
      reflexivity.
  - split.
    + rewrite (bind_silent _ _ _ _ _ (destroyUniverse_without_universe_is_noop_aux e Hu)).
      reflexivity.
    + destruct assertions.
      * unfold bind. rewrite (destroyUniverse_without_universe_asserts e Hu).
        reflexivity.
      * rewrite (bind_silent _ _ _ _ _ (destroyUniverse_without_universe_is_noop_aux e Hu)).
        apply destroyUniverse_without_universe_asserts. exact Hu.
Qed.

(** ** What a facade call can do to the fields *)

Lemma update_shape (is_game_running : bool) (m d : float) e :
  exists dt e1,
    update is_game_running m d e
    = Ok tt e1 (dispatched is_game_running dt e ++ [EvUpdateAsyncTransactions]) /\
    m_last_time_delta e1 = dt /\
    m_allocator e1 = m_allocator e /\ m_renderer e1 = m_renderer e /\
    m_plugin_manager e1 = m_plugin_manager e /\ m_universe e1 = m_universe e /\
    m_hierarchy e1 = m_hierarchy e /\ m_scenes e1 = m_scenes e.
Proof.
  assert (Hsame : forall dt e1,
    m_scenes e1 = m_scenes e -> m_renderer e1 = m_renderer e ->
    dispatched is_game_running dt e1 = dispatched is_game_running dt e).
  { intros dt e1 Hs Hr. unfold dispatched, owned_by_renderer. rewrite Hs, Hr.
    reflexivity. }
  destruct (Float32.ge d (Float32.of_int 0)) eqn:Hd.
  - pose proof (update_spec is_game_running _ _ _ _ _ (frame_delta_forced m d e Hd))
      as Hu.
    rewrite Hsame in Hu by reflexivity.
    eexists _, _. split; [exact Hu |]. repeat split.
  - pose proof (update_spec is_game_running _ _ _ _ _ (frame_delta_live m d e Hd))
      as Hu.
    rewrite Hsame in Hu
      by (destruct (wrap_int32 (m_fps_frame e + 1) =? 30); reflexivity).
    eexists _, _. split; [exact Hu |].
    destruct (wrap_int32 (m_fps_frame e + 1) =? 30); repeat split.
Qed.

Lemma dispatched_neutral (is_game_running : bool) (dt : float) e :
  forallb lifecycle_neutral
    (dispatched is_game_running dt e ++ [EvUpdateAsyncTransactions]) = true.
Proof.
  rewrite forallb_app. unfold dispatched. destruct is_game_running.
  - rewrite forallb_app, forallb_map_const by reflexivity. reflexivity.
  - rewrite forallb_map_const by reflexivity. reflexivity.
Qed.

Section RunProperties.
Context {codec : Codec}.

Lemma serialize_without_universe (serializer : OutputBlob) e :
  m_universe e = None \/ m_hierarchy e = None ->
  serialize serializer e = Crash NullDereference.
Proof.
  intros Hnull. unfold serialize.
  erewrite bind_Ok by reflexivity.
  rewrite bind_gets.
  destruct (m_universe e) as [u|]; [| reflexivity].
  cbn [deref]. rewrite bind_ret.
  erewrite bind_Ok by reflexivity.
  rewrite bind_gets.
  destruct Hnull as [Hu | Hh]; [discriminate |].
  rewrite Hh. reflexivity.
Qed.

Lemma serialize_inert (serializer : OutputBlob) e r e' calls :
  serialize serializer e = Ok r e' calls ->
  e' = e /\ forallb lifecycle_neutral calls = true.
Proof.
  destruct (m_universe e) as [u|] eqn:Hu.
  - destruct (m_hierarchy e) as [h|] eqn:Hh.
    + rewrite (serialize_spec serializer e u h Hu Hh). intros H. inversion H; subst.
      split; [reflexivity |]. apply forallb_map_const. reflexivity.
    + rewrite serialize_without_universe by (right; exact Hh). discriminate.
  - rewrite serialize_without_universe by (left; exact Hu). discriminate.
Qed.

Lemma deserialize_inert (serializer : InputBlob) e r e' calls :
  deserialize serializer e = Ok r e' calls ->
  e' = e /\ forallb lifecycle_neutral calls = true.
Proof.
  rewrite deserialize_spec. cbv zeta.
  destruct (negb _).
  { intros H. inversion H; subst. split; reflexivity. }
  destruct (_ <? _).
  { intros H. inversion H; subst. split; reflexivity. }
  destruct (m_universe e), (m_hierarchy e); try discriminate.
  intros H. inversion H; subst. split; [reflexivity |].
  apply forallb_map_const. reflexivity.
Qed.

(** A call that returns either created a universe, destroyed the active
    one, or left universe, hierarchy, registry, renderer and plugin
    manager alone and touched no scene's lifetime. *)
Lemma perform_cases (assertions : bool) (c : Call) e e' calls :
  perform assertions c e = Ok tt e' calls ->
  (exists u, createUniverse e = Ok u e' calls) \/
  (exists u, m_universe e = Some u /\ destroyUniverse assertions e = Ok tt e' calls) \/
  (m_renderer e' = m_renderer e /\ m_plugin_manager e' = m_plugin_manager e /\
   m_universe e' = m_universe e /\ m_hierarchy e' = m_hierarchy e /\
   m_scenes e' = m_scenes e /\
   (0 <= m_fps_frame e < 30 -> 0 <= m_fps_frame e' < 30) /\
   forallb lifecycle_neutral calls = true).
Proof.
  destruct c as [| | running m d | serializer | serializer]; cbn [perform]; intros Hrun.
  - left. pose proof (createUniverse_spec e) as Hc. cbv zeta in Hc.
    rewrite (bind_Ok _ _ _ _ _ _ Hc) in Hrun. cbn [ret] in Hrun.
    inversion Hrun; subst. rewrite app_nil_r. eexists. exact Hc.
  - destruct (m_universe e) as [u|] eqn:Hu.
    + right. left. exists u. split; [reflexivity | exact Hrun].
    + destruct assertions.
      * rewrite (destroyUniverse_without_universe_asserts e Hu) in Hrun. discriminate.
      * rewrite (destroyUniverse_without_universe_is_noop_aux e Hu) in Hrun.
        inversion Hrun; subst. right. right. rewrite Hu.
        refine (conj eq_refl (conj eq_refl (conj eq_refl (conj eq_refl
                 (conj eq_refl (conj (fun H => H) eq_refl)))))).
  - right. right.
    destruct (update_shape running m d e)
      as (dt & e1 & Hu & _ & _ & Hr & Hp & Hun & Hh & Hs).
    pose proof Hrun as Hrange.
    rewrite Hu in Hrun. inversion Hrun; subst.
    refine (conj Hr (conj Hp (conj Hun (conj Hh (conj Hs (conj _ _)))))).
    + intros Hk. apply (update_keeps_fps_frame_in_range _ _ _ _ _ _ Hk Hrange).
    + apply dispatched_neutral.
  - right. right.
    unfold bind in Hrun.
    destruct (serialize serializer e) as [r e1 c1|f] eqn:Hser; [| discriminate].
    destruct (serialize_inert _ _ _ _ _ Hser) as [-> Hn].
    cbn [ret] in Hrun. inversion Hrun; subst. rewrite app_nil_r.
    refine (conj eq_refl (conj eq_refl (conj eq_refl (conj eq_refl
             (conj eq_refl (conj (fun H => H) Hn)))))).
  - right. right.
    unfold bind in Hrun.
    destruct (deserialize serializer e) as [r e1 c1|f] eqn:Hdes; [| discriminate].
    destruct (deserialize_inert _ _ _ _ _ Hdes) as [-> Hn].
    cbn [ret] in Hrun. inversion Hrun; subst. rewrite app_nil_r.
    refine (conj eq_refl (conj eq_refl (conj eq_refl (conj eq_refl
             (conj eq_refl (conj (fun H => H) Hn)))))).
Qed.

End RunProperties.

Section RunInvariants.
Context {codec : Codec}.

Lemma perform_keeps_well_formed (assertions : bool) (c : Call) e e' calls :
  perform assertions c e = Ok tt e' calls ->
  well_formed e ->
  well_formed e' /\ m_renderer e' = m_renderer e /\
  m_plugin_manager e' = m_plugin_manager e.
Proof.
  intros Hrun (Hiff & Hempty & Hframe & Hfrom).
  destruct (perform_cases _ _ _ _ _ Hrun)
    as [(u & Hc) | [(u & Hu & Hd) | (Hr & Hp & Hun & Hh & Hs & Hk & _)]].
  - pose proof (createUniverse_spec e) as Hspec. cbv zeta in Hspec.
    rewrite Hspec in Hc. inversion Hc; subst. clear Hc.
    split; [| split; reflexivity].
    unfold well_formed. fields.
    split; [reflexivity |]. split; [discriminate |]. split; [exact Hframe |].
    intros s Hin. apply in_app_or in Hin as [Hin | Hin].
    + apply Hfrom. exact Hin.
    + apply In_scenes_of in Hin as (p & Hp & Hs). exists p. eexists. split; eassumption.
  - rewrite (destroyUniverse_spec assertions e u Hu) in Hd. inversion Hd; subst. clear Hd.
    split; [| split; reflexivity].
    unfold well_formed. fields.
    split; [reflexivity |]. split; [reflexivity |]. split; [exact Hframe |].
    intros s [].
  - split; [| split; assumption].
    unfold well_formed. rewrite Hun, Hh, Hs, Hp.
    split; [exact Hiff |]. split; [exact Hempty |]. split; [apply Hk; exact Hframe |].
    exact Hfrom.
Qed.

Lemma created_by_destroy_hooks (l : list IScene) (rest : list Event) :
  created_by (map (fun s => EvDestroyScene (getPlugin s) s) l ++ rest) = created_by rest.
Proof. induction l as [|s l IH]; [reflexivity | exact IH]. Qed.

Lemma destroyed_by_create_hooks (u : addr) (plugins : list IPlugin) :
  destroyed_by (map (fun p => EvCreateScene (plugin_addr p) u (createScene p u)) plugins)
  = [].
Proof. induction plugins as [|p plugins IH]; [reflexivity | exact IH]. Qed.

Lemma perform_balance (assertions : bool) (c : Call) e e' calls :
  perform assertions c e = Ok tt e' calls ->
  scenes_name_their_creator (getPlugins (m_plugin_manager e)) ->
  Permutation (created_by calls ++ scene_pairs (m_scenes e))
              (destroyed_by calls ++ scene_pairs (m_scenes e')) /\
  m_plugin_manager e' = m_plugin_manager e /\
  ((m_universe e = None -> m_scenes e = []) ->
   (m_universe e' = None -> m_scenes e' = [])).
Proof.
  intros Hrun Hown.
  destruct (perform_cases _ _ _ _ _ Hrun)
    as [(u & Hc) | [(u & Hu & Hd) | (Hr & Hp & Hun & Hh & Hs & Hk & Hn)]].
  - pose proof (createUniverse_spec e) as Hspec. cbv zeta in Hspec.
    rewrite Hspec in Hc. inversion Hc; subst. clear Hc.
    split; [| split; [reflexivity | intros _; discriminate]].
    cbn [created_by destroyed_by]. fields.
    rewrite created_by_hooks, destroyed_by_create_hooks.
    rewrite <- back_references_of_created by exact Hown.
    cbn [app]. unfold scene_pairs. rewrite map_app. apply Permutation_app_comm.
  - rewrite (destroyUniverse_spec assertions e u Hu) in Hd. inversion Hd; subst. clear Hd.
    split; [| split; [reflexivity | intros _ _; reflexivity]].
    rewrite created_by_destroy_hooks, destroyed_by_hooks. fields.
    cbn [created_by destroyed_by app scene_pairs map]. rewrite !app_nil_r.
    unfold scene_pairs. rewrite map_rev. apply Permutation_rev.
  - split; [| split; [exact Hp | rewrite Hun, Hs; tauto]].
    rewrite (neutral_created_by _ Hn), (neutral_destroyed_by _ Hn), Hs.
    apply Permutation_refl.
Qed.

Lemma perform_all_cons (assertions : bool) (c : Call) (rest : list Call) e e' calls :
  perform_all assertions (c :: rest) e = Ok tt e' calls ->
  exists e1 c1 c2,
    perform assertions c e = Ok tt e1 c1 /\
    perform_all assertions rest e1 = Ok tt e' c2 /\
    calls = c1 ++ c2.
Proof.
  cbn [perform_all]. unfold bind.
  destruct (perform assertions c e) as [[] e1 c1|f]; [| discriminate].
  destruct (perform_all assertions rest e1) as [[] e2 c2|f] eqn:Hrest; [| discriminate].
  intros H. inversion H; subst. exists e1, c1, c2.
  split; [reflexivity |]. split; [exact Hrest | reflexivity].
Qed.

(** X4. Whatever sequence of createUniverse, destroyUniverse, update,
    serialize and deserialize calls is made on a well-formed engine, if the
    sequence returns then the engine is well-formed again: a hierarchy
    exists exactly when a universe does, the registry is empty when there
    is no universe, the fps-sample counter is within 0..29, and every
    registered scene was returned by the create-scene hook of a registered
    plugin.  No call changes the cached renderer or the plugin list. *)
Theorem facade_calls_keep_engine_well_formed
    (assertions : bool) (cs : list Call) (e e' : EngineImpl) (calls : list Event) :
  well_formed e ->
  perform_all assertions cs e = Ok tt e' calls ->
  well_formed e' /\
  m_renderer e' = m_renderer e /\
  m_plugin_manager e' = m_plugin_manager e.
Proof.
  revert e calls. induction cs as [|c rest IH]; intros e calls Hwf Hrun.
  - inversion Hrun; subst. repeat split; apply Hwf.
  - apply perform_all_cons in Hrun as (e1 & c1 & c2 & H1 & H2 & ->).
    destruct (perform_keeps_well_formed _ _ _ _ _ H1 Hwf) as (Hwf1 & Hr1 & Hp1).
    destruct (IH _ _ Hwf1 H2) as (Hwf' & Hr' & Hp').
    split; [exact Hwf' |]. split; congruence.
Qed.

(** X5. Over any sequence of facade calls that starts without a universe
    and returns, scene creations and destructions balance: the (plugin,
    scene) pairs created are, up to order, the pairs destroyed together
    with the pairs still in the registry.  So every (plugin, scene) pair
    destroyed is a pair that was created: a plugin is only asked to
    destroy scenes its own hook created.  Whenever the engine is back
    without a universe, every scene ever created has been destroyed.  And
    when the pairs created are pairwise distinct (each create-scene call
    yields a scene of its own), no pair is destroyed twice.  (Scenes are
    taken to name their creator, as in C2.) *)
Theorem scene_lifetimes_balance
    (assertions : bool) (cs : list Call) (e e' : EngineImpl) (calls : list Event) :
  NoUniverse e ->
  scenes_name_their_creator (getPlugins (m_plugin_manager e)) ->
  perform_all assertions cs e = Ok tt e' calls ->
  Permutation (created_by calls) (destroyed_by calls ++ scene_pairs (m_scenes e')) /\
  (m_universe e' = None -> Permutation (created_by calls) (destroyed_by calls)) /\
  (forall x, In x (destroyed_by calls) -> In x (created_by calls)) /\
  (NoDup (created_by calls) -> NoDup (destroyed_by calls)).
Proof.
  intros (Hu & _ & Hs) Hown Hrun.
  assert (Hgen : forall cs e e' calls,
    scenes_name_their_creator (getPlugins (m_plugin_manager e)) ->
    perform_all assertions cs e = Ok tt e' calls ->
    Permutation (created_by calls ++ scene_pairs (m_scenes e))
                (destroyed_by calls ++ scene_pairs (m_scenes e')) /\
    ((m_universe e = None -> m_scenes e = []) ->
     (m_universe e' = None -> m_scenes e' = []))).
  { clear. induction cs as [|c rest IH]; intros e e' calls Hown Hrun.
    - inversion Hrun; subst. split; [apply Permutation_refl | tauto].
    - apply perform_all_cons in Hrun as (e1 & c1 & c2 & H1 & H2 & ->).
      destruct (perform_balance _ _ _ _ _ H1 Hown) as (Hb1 & Hp1 & He1).
      rewrite <- Hp1 in Hown.
      destruct (IH _ _ _ Hown H2) as (Hb2 & He2).
      split; [| tauto].
      rewrite created_by_app, destroyed_by_app, <- !app_assoc.
      eapply Permutation_trans; [apply Permutation_app_swap_app |].
      eapply Permutation_trans; [apply Permutation_app_head; exact Hb1 |].
      eapply Permutation_trans; [apply Permutation_app_swap_app |].
      apply Permutation_app_head. exact Hb2. }
  destruct (Hgen cs e e' calls Hown Hrun) as (Hb & He).
  rewrite Hs in Hb. cbn [scene_pairs map] in Hb. rewrite app_nil_r in Hb.
  split; [exact Hb |].
  split; [| split].
  - intros Hnone. rewrite (He (fun _ => Hs) Hnone) in Hb.
    cbn [scene_pairs map] in Hb. rewrite app_nil_r in Hb. exact Hb.
  - intros x Hx. apply (Permutation_in x (Permutation_sym Hb)).
    apply in_or_app. left. exact Hx.
  - intros Hnd. apply (Permutation_NoDup Hb) in Hnd.
    apply NoDup_app_remove_r in Hnd. exact Hnd.
Qed.

End RunInvariants.

Lemma fresh_engine_well_formed : well_formed fresh_engine.
Proof.
  split; [reflexivity |]. split; [reflexivity |]. split; [cbn; lia |].
  intros s [].
Qed.

Lemma sample_session_returns :
  exists e' calls,
    perform_all (codec := sample_codec) true sample_session fresh_engine
    = Ok tt e' calls.
Proof. eexists _, _. reflexivity. Qed.

Lemma facade_calls_keep_engine_well_formed_witness :
  exists e' calls,
    perform_all (codec := sample_codec) true sample_session fresh_engine
    = Ok tt e' calls /\
    well_formed e' /\
    m_renderer e' = m_renderer fresh_engine /\
    m_plugin_manager e' = m_plugin_manager fresh_engine.
Proof.
  destruct sample_session_returns as (e' & calls & Hrun).
  exists e', calls. split; [exact Hrun |].
  apply (facade_calls_keep_engine_well_formed (codec := sample_codec)
           true sample_session fresh_engine e' calls fresh_engine_well_formed Hrun).
Defined.

Lemma scene_lifetimes_balance_witness :
  exists e' calls,
    perform_all (codec := sample_codec) true sample_session fresh_engine
    = Ok tt e' calls /\
    Permutation (created_by calls) (destroyed_by calls ++ scene_pairs (m_scenes e')) /\
    Permutation (created_by calls) (destroyed_by calls) /\
    NoDup (destroyed_by calls).
Proof.
  eexists _, _. split; [reflexivity |].
  match goal with
  | |- Permutation (created_by ?c) (_ ++ scene_pairs (m_scenes ?x)) /\ _ =>
      destruct (scene_lifetimes_balance (codec := sample_codec)
                  true sample_session fresh_engine x c)
        as (Hperm & Hnone & _ & Hnodup)
  end.
  - repeat split.
  - exact sample_scenes_name_their_creator.
  - reflexivity.
  - split; [exact Hperm |]. split; [apply Hnone; reflexivity |].
    apply Hnodup. cbn.
    constructor; [intros [H | []]; discriminate H |].
    constructor; [intros [] | constructor].
Defined.

(** ** Scene lookup *)

Lemma scan_scenes_find (pred : IScene -> bool) : forall l2 l1,
  scan_scenes pred (l1 ++ l2) (length l1) (length l2) = find pred l2.
Proof.
  induction l2 as [|x l2 IH]; intros l1; [reflexivity |].
  cbn [length scan_scenes find]. rewrite nth_error_middle.
  destruct (pred x); [reflexivity |].
  specialize (IH (l1 ++ [x])).
  rewrite length_app, Nat.add_1_r, <- app_assoc in IH. exact IH.
Qed.

Lemma find_first {A} (p : A -> bool) (x : A) : forall l,
  find p l = Some x ->
  exists before after,
    l = before ++ x :: after /\ p x = true /\
    forall y, In y before -> p y = false.
Proof.
  induction l as [|a l IH]; [discriminate |].
  cbn [find]. destruct (p a) eqn:Hpa.
  - intros H. inversion H; subst. exists [], l. repeat split; [exact Hpa |].
    intros y [].
  - intros H. destruct (IH H) as (before & after & -> & Hx & Hb).
    exists (a :: before), after. repeat split; [exact Hx |].
    intros y [<- | Hy]; [exact Hpa | apply Hb; exact Hy].
Qed.

Lemma find_none_iff {A} (p : A -> bool) (l : list A) :
  find p l = None <-> forall y, In y l -> p y = false.
Proof.
  split; [apply find_none |].
  induction l as [|a l IH]; [reflexivity |].
  intros H. cbn [find]. rewrite (H a (or_introl eq_refl)).
  apply IH. intros y Hy. apply H. right. exact Hy.
Qed.

Section LookupProperties.
Context {queries : SceneQueries} {codec : Codec}.

(** X6. getSceneByComponentType(type) returns the first scene of the
    registry, in registration order, that owns the component type: every
    scene before the one returned does not own it.  It returns null
    exactly when no registered scene owns the type; in particular on an
    engine without scenes. *)
Theorem getSceneByComponentType_first_owner (type : Z) (e : EngineImpl) :
  (forall s, getSceneByComponentType type e = Some s ->
     exists before after,
       getScenes e = before ++ s :: after /\
       ownComponentType s type = true /\
       forall x, In x before -> ownComponentType x type = false) /\
  (getSceneByComponentType type e = None <->
   forall s, In s (getScenes e) -> ownComponentType s type = false).
Proof.
  unfold getSceneByComponentType, getScenes.
  rewrite (scan_scenes_find (fun s => ownComponentType s type) (m_scenes e) []).
  split.
  - intros s Hfind.
    apply (find_first (fun s => ownComponentType s type) s (m_scenes e) Hfind).
  - apply (find_none_iff (fun s => ownComponentType s type)).
Qed.

(** X7. getScene(type) returns the first scene of the registry whose
    owning plugin's name hashes (crc32) to [type], and null exactly when
    no registered scene's plugin has that name hash. *)
Theorem getScene_first_by_name_hash (type : Z) (e : EngineImpl) :
  (forall s, getScene type e = Some s ->
     exists before after,
       getScenes e = before ++ s :: after /\
       name_hash (plugin_object (getPlugin s)) = type /\
       forall x, In x before -> name_hash (plugin_object (getPlugin x)) <> type) /\
  (getScene type e = None <->
   forall s, In s (getScenes e) -> name_hash (plugin_object (getPlugin s)) <> type).
Proof.
  unfold getScene, getScenes.
  rewrite (scan_scenes_find
             (fun s => name_hash (plugin_object (getPlugin s)) =? type) (m_scenes e) []).
  split.
  - intros s Hfind.
    destruct (find_first _ s (m_scenes e) Hfind) as (before & after & Hl & Hs & Hb).
    exists before, after. split; [exact Hl |]. split; [apply Z.eqb_eq; exact Hs |].
    intros x Hx. apply Z.eqb_neq. apply Hb. exact Hx.
  - rewrite find_none_iff. split; intros H s Hs.
    + apply Z.eqb_neq. apply H. exact Hs.
    + apply Z.eqb_neq. apply H. exact Hs.
Qed.

(** X8. After createUniverse(), looking a plugin up by the hash of its
    name finds the very scene its hook created, provided the registered
    plugins have pairwise different name hashes (and scenes refer back to
    the plugin objects that created them).  A plugin that created no scene
    is not found. *)
Theorem getScene_after_createUniverse (e : EngineImpl) :
  NoUniverse e ->
  scenes_name_their_creator (getPlugins (m_plugin_manager e)) ->
  (forall p, In p (getPlugins (m_plugin_manager e)) -> plugin_object (plugin_addr p) = p) ->
  (forall p q, In p (getPlugins (m_plugin_manager e)) ->
               In q (getPlugins (m_plugin_manager e)) ->
               name_hash p = name_hash q -> p = q) ->
  exists u e1 calls,
    createUniverse e = Ok u e1 calls /\
    forall p, In p (getPlugins (m_plugin_manager e)) ->
              getScene (name_hash p) e1 = createScene p u.
Proof.
  intros (_ & _ & Hs) Hown Hobj Hinj.
  pose proof (createUniverse_spec e) as Hc. cbv zeta in Hc.
  eexists _, _, _. split; [exact Hc |].
  intros p Hp. unfold getScene. fields. rewrite Hs. cbn [app].
  set (u := next_free (m_allocator e)).
  set (plugins := getPlugins (m_plugin_manager e)) in *.
  rewrite (scan_scenes_find _ (scenes_of plugins u) []).
  assert (Hsub : forall l, incl l plugins ->
    find (fun s => name_hash (plugin_object (getPlugin s)) =? name_hash p) (scenes_of l u)
    = if existsb (fun q => name_hash q =? name_hash p) l then createScene p u else None).
  { induction l as [|q l IH]; intros Hincl; [reflexivity |].
    assert (Hq : In q plugins) by (apply Hincl; left; reflexivity).
    assert (Hl : incl l plugins) by (intros x Hx; apply Hincl; right; exact Hx).
    unfold scenes_of in *. cbn [flat_map existsb].
    destruct (Z.eqb_spec (name_hash q) (name_hash p)) as [Heq | Hne]; cbn [orb].
    - rewrite (Hinj q p Hq Hp Heq) in *.
      destruct (createScene p u) as [s|] eqn:Hcs.
      + cbn [app find].
        rewrite (Hown p u s Hp Hcs), (Hobj p Hp), Z.eqb_refl. reflexivity.
      + cbn [app]. rewrite (IH Hl). destruct (existsb _ l); reflexivity.
    - destruct (createScene q u) as [s|] eqn:Hcs.
      + cbn [app find].
        rewrite (Hown q u s Hq Hcs), (Hobj q Hq), (proj2 (Z.eqb_neq _ _) Hne).
        apply IH. exact Hl.
      + cbn [app]. apply IH. exact Hl. }
  rewrite (Hsub plugins (incl_refl _)).
  assert (Hex : existsb (fun q => name_hash q =? name_hash p) plugins = true).
  { apply existsb_exists. exists p. split; [exact Hp | apply Z.eqb_refl]. }
  rewrite Hex. reflexivity.
Qed.

End LookupProperties.

Lemma sample_plugin_objects :
  forall p, In p (getPlugins (m_plugin_manager fresh_engine)) ->
            plugin_object (SceneQueries := sample_queries) (plugin_addr p) = p.
Proof. intros p [<- | [<- | [<- | []]]]; reflexivity. Qed.

Lemma sample_name_hashes_differ :
  forall p q, In p (getPlugins (m_plugin_manager fresh_engine)) ->
              In q (getPlugins (m_plugin_manager fresh_engine)) ->
              name_hash (codec := sample_codec) p = name_hash (codec := sample_codec) q ->
              p = q.
Proof.
  intros p q [<- | [<- | [<- | []]]] [<- | [<- | [<- | []]]] H;
    try reflexivity; vm_compute in H; discriminate H.
Qed.

Lemma getScene_after_createUniverse_witness :
  exists u e1 calls,
    createUniverse fresh_engine = Ok u e1 calls /\
    getScene (queries := sample_queries) (codec := sample_codec)
      (name_hash (codec := sample_codec) physics_plugin) e1 = Some scene_of_physics /\
    getScene (queries := sample_queries) (codec := sample_codec)
      (name_hash (codec := sample_codec) script_plugin) e1 = None.
Proof.
  destruct (getScene_after_createUniverse
              (queries := sample_queries) (codec := sample_codec) fresh_engine)
    as (u & e1 & calls & Hrun & Hfind).
  - repeat split.
  - exact sample_scenes_name_their_creator.
  - exact sample_plugin_objects.
  - exact sample_name_hashes_differ.
  - exists u, e1, calls. split; [exact Hrun |]. split.
    + apply (Hfind physics_plugin). right. left. reflexivity.
    + apply (Hfind script_plugin). right. right. left. reflexivity.
Defined.

(** ** More on the frame update *)

Lemma dispatched_deltas (is_game_running : bool) (dt : float) e :
  Forall (fun ev => delta_of ev = Some dt) (dispatched is_game_running dt e).
Proof.
  unfold dispatched. destruct is_game_running.
  - apply Forall_app. split.
    + apply Forall_map. apply Forall_forall. reflexivity.
    + repeat constructor.
  - apply Forall_map. apply Forall_forall. reflexivity.
Qed.

Lemma drains_dispatched (is_game_running : bool) (dt : float) e :
  drains (dispatched is_game_running dt e) = 0%nat.
Proof.
  assert (Hmap : forall l : list IScene,
    drains (map (fun s => EvSceneUpdate s dt) l) = 0%nat).
  { induction l as [|s l IH]; [reflexivity | exact IH]. }
  unfold dispatched. destruct is_game_running.
  - unfold drains in *. rewrite filter_app, length_app, Hmap. reflexivity.
  - apply Hmap.
Qed.

Lemma drains_app (a b : list Event) : drains (a ++ b) = (drains a + drains b)%nat.
Proof. unfold drains. rewrite filter_app, length_app. reflexivity. Qed.

(** X9. Every update() call returns, and leaves the universe, the
    hierarchy, the scene registry, the plugin manager, the cached renderer
    and the allocator as they were.  Its last call, and only that one,
    drains the file system's asynchronous transactions; every call before
    it hands a collaborator the very delta that getLastTimeDelta() reports
    afterwards. *)
Theorem update_frame (is_game_running : bool) (m d : float) (e : EngineImpl) :
  exists e' front,
    update is_game_running m d e = Ok tt e' (front ++ [EvUpdateAsyncTransactions]) /\
    drains (front ++ [EvUpdateAsyncTransactions]) = 1%nat /\
    Forall (fun ev => delta_of ev = Some (getLastTimeDelta e')) front /\
    m_universe e' = m_universe e /\ m_hierarchy e' = m_hierarchy e /\
    m_scenes e' = m_scenes e /\ m_plugin_manager e' = m_plugin_manager e /\
    m_renderer e' = m_renderer e /\ m_allocator e' = m_allocator e.
Proof.
  destruct (update_shape is_game_running m d e)
    as (dt & e1 & Hu & Hdt & Ha & Hr & Hp & Hun & Hh & Hs).
  exists e1, (dispatched is_game_running dt e).
  split; [exact Hu |].
  split; [rewrite drains_app, drains_dispatched; reflexivity |].
  split; [unfold getLastTimeDelta; rewrite Hdt; apply dispatched_deltas |].
  repeat split; assumption.
Qed.

(** X10. In live mode the value of the forced delta plays no role: every
    forced delta that fails the test [forced_time_delta >= 0], a NaN
    included, makes update() behave exactly as with -1. *)
Theorem update_live_ignores_forced_delta
    (is_game_running : bool) (m d : float) (e : EngineImpl) :
  Float32.ge d (Float32.of_int 0) = false ->
  update is_game_running m d e = update is_game_running m (Float32.of_int (-1)) e.
Proof.
  intros Hd.
  rewrite (update_spec _ _ _ _ _ _ (frame_delta_live m d e Hd)).
  rewrite (update_spec _ _ _ _ _ _ (frame_delta_live m (Float32.of_int (-1)) e eq_refl)).
  reflexivity.
Qed.

Lemma update_live_ignores_forced_delta_witness :
  update false (Float32.of_int 1) S754_nan active_engine
  = update false (Float32.of_int 1) (Float32.of_int (-1)) active_engine.
Proof.
  apply (update_live_ignores_forced_delta false (Float32.of_int 1) S754_nan active_engine).
  reflexivity.
Defined.

(** X11. Forced mode never divides by zero.  When the forced delta is
    non-negative (negative zero counts), both factors are finite and one
    of them is a zero, update() caches a zero delta and sets the fps to
    exactly +0 rather than to an infinity or a NaN. *)
Theorem update_forced_zero_delta (is_game_running : bool) (m d : float) (e : EngineImpl) :
  Float32.ge d (Float32.of_int 0) = true ->
  is_finite d = true -> is_finite m = true ->
  is_zero d || is_zero m = true ->
  exists e' calls,
    update is_game_running m d e = Ok tt e' calls /\
    is_zero (getLastTimeDelta e') = true /\
    getFPS e' = S754_zero false.
Proof.
  intros Hd Hfd Hfm Hz.
  eexists _, _. split; [apply (update_spec _ _ _ _ _ _ (frame_delta_forced m d e Hd)) |].
  fields.
  destruct d as [sd | sd | | sd md ed]; try discriminate Hfd;
    destruct m as [sm | sm | | sm mm em]; try discriminate Hfm;
    try discriminate Hz; split; reflexivity.
Qed.

Lemma update_forced_zero_delta_witness :
  exists e' calls,
    update true (Float32.of_int 2) (S754_zero true) active_engine = Ok tt e' calls /\
    is_zero (getLastTimeDelta e') = true /\
    getFPS e' = S754_zero false.
Proof.
  apply (update_forced_zero_delta true (Float32.of_int 2) (S754_zero true) active_engine);
    reflexivity.
Defined.

Lemma update_timers (is_game_running : bool) (m d : float) e :
  exists e' calls,
    update is_game_running m d e = Ok tt e' calls /\
    m_timer e' = (if Float32.ge d (Float32.of_int 0) then m_timer e
                  else snd (Timer_tick (m_timer e))) /\
    drains calls = 1%nat.
Proof.
  destruct (Float32.ge d (Float32.of_int 0)) eqn:Hd.
  - eexists _, _.
    split; [apply (update_spec _ _ _ _ _ _ (frame_delta_forced m d e Hd)) |].
    split; [reflexivity |].
    rewrite drains_app, drains_dispatched. reflexivity.
  - eexists _, _.
    split; [apply (update_spec _ _ _ _ _ _ (frame_delta_live m d e Hd)) |].
    split; [destruct (wrap_int32 (m_fps_frame e + 1) =? 30); reflexivity |].
    rewrite drains_app, drains_dispatched. reflexivity.
Qed.

(** X12. Over any run of update() calls, forced and live mixed, the run
    returns; the frame timer is ticked once per live-mode call and never by
    a forced-mode call; and the file system's asynchronous transactions are
    drained exactly once per call. *)
Theorem update_each_ticks_and_drains (args : list (bool * float * float)) (e : EngineImpl) :
  exists e' calls,
    update_each args e = Ok tt e' calls /\
    tick_count (m_timer e') = (tick_count (m_timer e) + live_calls args)%nat /\
    elapsed_at (m_timer e') = elapsed_at (m_timer e) /\
    drains calls = length args.
Proof.
  revert e. induction args as [|[[running m] d] rest IH]; intros e.
  - exists e, []. cbn. rewrite Nat.add_0_r. repeat split.
  - destruct (update_timers running m d e) as (e1 & c1 & Hrun1 & Ht1 & Hd1).
    destruct (IH e1) as (e' & c' & Hrun & Ht & He & Hd).
    exists e', (c1 ++ c'). split.
    { cbn [update_each]. rewrite (bind_Ok _ _ _ _ _ _ Hrun1), Hrun. reflexivity. }
    rewrite drains_app, Hd1, Hd, Ht, He, Ht1.
    unfold live_calls. cbn [filter snd length].
    destruct (Float32.ge d (Float32.of_int 0)); cbn [negb length Timer_tick snd
      tick_count elapsed_at]; repeat split; lia.
Qed.

(** The fps bookkeeping over a run of live-mode calls. *)
Lemma update_each_live (args : list (bool * float * float)) : forall e,
  Forall (fun a => Float32.ge (snd a) (Float32.of_int 0) = false) args ->
  0 <= m_fps_frame e < 30 ->
  exists e' calls,
    update_each args e = Ok tt e' calls /\
    m_fps_frame e' = (m_fps_frame e + Z.of_nat (length args)) mod 30 /\
    Z.of_nat (tick_count (m_fps_timer e'))
    = Z.of_nat (tick_count (m_fps_timer e))
      + (m_fps_frame e + Z.of_nat (length args)) / 30 /\
    elapsed_at (m_fps_timer e') = elapsed_at (m_fps_timer e) /\
    (m_fps_frame e + Z.of_nat (length args) < 30 -> m_fps e' = m_fps e) /\
    (m_fps_frame e + Z.of_nat (length args) = 30 ->
     m_fps e' = Float32.div (Float32.of_int 30)
                  (elapsed_at (m_fps_timer e) (tick_count (m_fps_timer e)))).
Proof.
  induction args as [|[[running m] d] rest IH]; intros e Hlive Hk.
  - exists e, []. cbn [length Z.of_nat update_each].
    rewrite Z.add_0_r, Z.mod_small, Z.div_small by lia.
    split; [reflexivity |]. split; [reflexivity |]. split; [lia |].
    split; [reflexivity |]. split; [reflexivity | lia].
  - inversion Hlive as [|a l Hd Hrest]; subst. cbn [snd] in Hd.
    destruct (update_live_step running m d e Hd Hk)
      as (e1 & c1 & Hrun1 & Hf1 & Ht1 & He1 & Hfps1).
    assert (Hk1 : 0 <= m_fps_frame e1 < 30)
      by (rewrite Hf1; apply Z.mod_pos_bound; lia).
    destruct (IH e1 Hrest Hk1) as (e' & c' & Hrun & Hf & Ht & He & Hkeep & Hnew).
    exists e', (c1 ++ c').
    split.
    { cbn [update_each]. rewrite (bind_Ok _ _ _ _ _ _ Hrun1), Hrun. reflexivity. }
    cbn [length]. rewrite Nat2Z.inj_succ.
    rewrite Hf1 in Hf, Ht, Hkeep, Hnew.
    split; [rewrite Hf, Zplus_mod_idemp_l; f_equal; lia |].
    split.
    { rewrite Ht, Ht1.
      assert ((m_fps_frame e + Z.succ (Z.of_nat (length rest))) / 30
              = (m_fps_frame e + 1) / 30
                + ((m_fps_frame e + 1) mod 30 + Z.of_nat (length rest)) / 30) as ->;
        [| lia].
      Z.div_mod_to_equations. lia. }
    split; [rewrite He, He1; reflexivity |].
    split.
    + intros Hlt. rewrite Hkeep by (rewrite Z.mod_small; lia).
      rewrite Hfps1, Z.div_small by lia. reflexivity.
    + intros H30.
      destruct (Z.eq_dec (m_fps_frame e + 1) 30) as [Hlast | Hnot].
      * assert (Hnil : Z.of_nat (length rest) = 0) by lia.
        rewrite Hkeep by (rewrite Hlast; cbn; lia).
        rewrite Hfps1, Hlast. reflexivity.
      * rewrite Z.mod_small in Hnew by lia.
        rewrite Hnew by lia.
        rewrite He1.
        assert (Hsame : tick_count (m_fps_timer e1) = tick_count (m_fps_timer e)).
        { rewrite Z.div_small in Ht1 by lia. lia. }
        rewrite Hsame. reflexivity.
Qed.

(** X13. A forced-mode update() restarts the fps sampling window, whatever
    the sample counter was before.  In the live-mode calls that follow, the
    fps value it computed (1/dt, or 0) stays cached for the first 29 calls,
    with the fps-sample timer untouched, and the 30th call resamples it
    from the time elapsed since the forced call's own tick. *)
Theorem forced_update_restarts_fps_window
    (is_game_running : bool) (m d : float) (args : list (bool * float * float))
    (e : EngineImpl) :
  Float32.ge d (Float32.of_int 0) = true ->
  Forall (fun a => Float32.lt (snd a) (Float32.of_int 0) = true) args ->
  exists e1 c1 e' calls,
    update is_game_running m d e = Ok tt e1 c1 /\
    update_each args e1 = Ok tt e' calls /\
    m_fps_frame e' = Z.of_nat (length args) mod 30 /\
    ((length args < 30)%nat ->
     getFPS e' = getFPS e1 /\
     tick_count (m_fps_timer e') = S (tick_count (m_fps_timer e))) /\
    (length args = 30%nat ->
     getFPS e' = Float32.div (Float32.of_int 30)
                   (elapsed_at (m_fps_timer e) (S (tick_count (m_fps_timer e)))) /\
     tick_count (m_fps_timer e') = S (S (tick_count (m_fps_timer e)))).
Proof.
  intros Hd Hlive.
  pose proof (update_spec is_game_running _ _ _ _ _ (frame_delta_forced m d e Hd)) as H1.
  match type of H1 with _ = Ok tt ?x ?c => set (e1 := x) in *; set (c1 := c) in * end.
  assert (Hge : Forall (fun a => Float32.ge (snd a) (Float32.of_int 0) = false) args).
  { apply Forall_forall. intros a Ha. apply lt_zero_not_ge.
    apply (proj1 (Forall_forall _ _) Hlive a Ha). }
  assert (Hk1 : 0 <= m_fps_frame e1 < 30) by (cbn; lia).
  destruct (update_each_live args e1 Hge Hk1)
    as (e' & calls & Hrun & Hf & Ht & He & Hkeep & Hnew).
  exists e1, c1, e', calls.
  split; [exact H1 |]. split; [exact Hrun |].
  change (m_fps_frame e1) with 0 in Hf, Ht, Hkeep, Hnew.
  change (tick_count (m_fps_timer e1)) with (S (tick_count (m_fps_timer e))) in Ht, Hnew.
  change (elapsed_at (m_fps_timer e1)) with (elapsed_at (m_fps_timer e)) in Hnew.
  rewrite Z.add_0_l in Hf, Ht, Hkeep, Hnew.
  split; [exact Hf |]. split.
  - intros Hlt. split; [apply Hkeep; lia |].
    rewrite Z.div_small in Ht by lia. lia.
  - intros H30. split; [apply Hnew; lia |].
    rewrite H30 in Ht. change (Z.of_nat 30 / 30) with 1 in Ht. lia.
Qed.

Lemma forced_update_restarts_fps_window_witness :
  exists e1 c1 e' calls,
    update true (Float32.of_int 2) (Float32.literal 1 10) active_engine = Ok tt e1 c1 /\
    update_each (repeat (true, Float32.of_int 1, Float32.of_int (-1)) 29) e1
    = Ok tt e' calls /\
    m_fps_frame e' = 29 /\
    getFPS e' = Float32.of_int 5.
Proof.
  destruct (forced_update_restarts_fps_window true (Float32.of_int 2)
              (Float32.literal 1 10)
              (repeat (true, Float32.of_int 1, Float32.of_int (-1)) 29) active_engine)
    as (e1 & c1 & e' & calls & H1 & Hrun & Hf & Hkeep & _).
  - reflexivity.
  - repeat constructor.
  - exists e1, c1, e', calls. split; [exact H1 |]. split; [exact Hrun |].
    split; [exact Hf |].
    destruct Hkeep as [Hfps _]; [cbn; lia |].
    rewrite Hfps.
    assert (Hinv : forall x c, update true (Float32.of_int 2) (Float32.literal 1 10)
                                 active_engine = Ok tt x c ->
                               getFPS x = Float32.of_int 5).
    { intros x c Hx.
      rewrite (update_spec _ _ _ _ _ _
                 (frame_delta_forced (Float32.of_int 2) (Float32.literal 1 10)
                    active_engine eq_refl)) in Hx.
      inversion Hx. reflexivity. }
    apply (Hinv e1 c1 H1).
Defined.

(** X14. update() on an engine whose registry is empty still runs: with
    the game running it updates the plugin manager and the input system
    and then drains the file system; with the game not running it only
    drains the file system. *)
Theorem update_with_empty_registry (is_game_running : bool) (m d : float) (e : EngineImpl) :
  m_scenes e = [] ->
  exists e',
    update is_game_running m d e
    = Ok tt e'
        (if is_game_running then
           [EvPluginManagerUpdate (getLastTimeDelta e');
            EvInputSystemUpdate (getLastTimeDelta e');
            EvUpdateAsyncTransactions]
         else [EvUpdateAsyncTransactions]).
Proof.
  intros Hs.
  destruct (update_shape is_game_running m d e)
    as (dt & e1 & Hu & Hdt & _).
  exists e1. rewrite Hu. unfold dispatched, getLastTimeDelta. rewrite Hs, Hdt.
  destruct is_game_running; reflexivity.
Qed.

Lemma update_with_empty_registry_witness :
  exists e',
    update false (Float32.of_int 1) (Float32.of_int (-1)) fresh_engine
    = Ok tt e' [EvUpdateAsyncTransactions].
Proof.
  apply (update_with_empty_registry false (Float32.of_int 1) (Float32.of_int (-1))
           fresh_engine).
  reflexivity.
Defined.

(** ** More on the serialization codec *)

Lemma Z_of_byte_range (b : byte) : 0 <= Z_of_byte b < 256.
Proof.
  unfold Z_of_byte. pose proof (Byte.to_N_bounded b). lia.
Qed.

Lemma le_value_range (bs : list byte) :
  0 <= le_value bs < 2 ^ (8 * Z.of_nat (length bs)).
Proof.
  induction bs as [|b bs IH].
  - cbn. lia.
  - cbn [le_value length]. pose proof (Z_of_byte_range b).
    replace (8 * Z.of_nat (S (length bs))) with (8 + 8 * Z.of_nat (length bs)) by lia.
    rewrite Z.pow_add_r by lia. change (2 ^ 8) with 256. nia.
Qed.

Lemma read_header_cursor_fits (serializer : InputBlob) :
  (ib_pos serializer + sizeof_SerializedEngineHeader <= length (ib_data serializer))%nat ->
  snd (read_header serializer)
  = {| ib_data := ib_data serializer;
       ib_pos := (ib_pos serializer + sizeof_SerializedEngineHeader)%nat |}.
Proof.
  intros Hfit. unfold read_header, InputBlob_read.
  rewrite (proj2 (Nat.leb_le _ _) Hfit). reflexivity.
Qed.

Section CodecProperties.
Context {codec : Codec}.

(** X15. serialize() and deserialize() dereference the universe and the
    hierarchy without a check: on an engine that lacks either, serialize()
    is a null dereference, and so is deserialize() on every stream whose
    header it accepts. *)
Theorem serialization_needs_a_universe
    (out : OutputBlob) (inp : InputBlob) (e : EngineImpl) :
  m_universe e = None \/ m_hierarchy e = None ->
  serialize out e = Crash NullDereference /\
  (m_magic (fst (read_header inp)) = SERIALIZED_ENGINE_MAGIC ->
   m_version (fst (read_header inp)) <= version_value LATEST ->
   deserialize inp e = Crash NullDereference).
Proof.
  intros Hnull. split; [apply serialize_without_universe; exact Hnull |].
  intros Hm Hv. rewrite deserialize_spec. cbv zeta.
  rewrite (proj2 (Z.eqb_eq _ _) Hm), (proj2 (Z.ltb_ge _ _) Hv). cbn [negb].
  destruct Hnull as [-> | Hh]; [reflexivity |].
  rewrite Hh. destruct (m_universe e); reflexivity.
Qed.

(** X16. A stream with the right magic but a version beyond the latest one
    is turned down like a foreign one: deserialize() returns failure, logs
    "Unsupported version", leaves the engine as it was, hands the stream to
    no collaborator, and has consumed nothing beyond the header. *)
Theorem deserialize_unsupported_version (serializer : InputBlob) (e : EngineImpl) :
  m_magic (fst (read_header serializer)) = SERIALIZED_ENGINE_MAGIC ->
  version_value LATEST < m_version (fst (read_header serializer)) ->
  exists after,
    deserialize serializer e
    = Ok (false, after) e [EvLogError "engine" "Unsupported version"] /\
    ib_data after = ib_data serializer /\
    (ib_pos after <= ib_pos serializer + sizeof_SerializedEngineHeader)%nat.
Proof.
  intros Hm Hv. exists (snd (read_header serializer)).
  rewrite deserialize_spec. cbv zeta.
  rewrite (proj2 (Z.eqb_eq _ _) Hm), (proj2 (Z.ltb_lt _ _) Hv). cbn [negb].
  split; [reflexivity |].
  destruct (read_header_cursor serializer) as (Hd & _ & Hp).
  split; assumption.
Qed.

(** X17. The version is compared as a signed 32-bit number.  A version
    field whose bit pattern has the top bit set reads as a negative number,
    which does not exceed the latest version: with the right magic such a
    stream is accepted. *)
Theorem deserialize_reads_version_as_signed
    (pre version reserved rest : list byte) (e : EngineImpl) :
  length version = 4%nat -> length reserved = 4%nat ->
  2 ^ 31 <= le_value version ->
  is_some (m_universe e) = true -> is_some (m_hierarchy e) = true ->
  m_version (fst (read_header
      {| ib_data := pre ++ le_bytes 4 SERIALIZED_ENGINE_MAGIC ++ version
                    ++ reserved ++ rest;
         ib_pos := length pre |})) < 0 /\
  verdict (deserialize
      {| ib_data := pre ++ le_bytes 4 SERIALIZED_ENGINE_MAGIC ++ version
                    ++ reserved ++ rest;
         ib_pos := length pre |} e) = Some true.
Proof.
  intros Hv Hr Htop Hu Hh.
  rewrite deserialize_verdict, Hu, Hh. cbv zeta.
  rewrite (read_header_at pre (le_bytes 4 SERIALIZED_ENGINE_MAGIC) version reserved rest
             eq_refl Hv Hr).
  cbn [m_magic m_version].
  pose proof (le_value_range version) as Hrange. rewrite Hv in Hrange.
  change (8 * Z.of_nat 4) with 32 in Hrange.
  assert (Hneg : to_int32 (le_value version) < 0).
  { unfold to_int32. destruct (Z.ltb_spec (le_value version) (2 ^ 31)); lia. }
  split; [exact Hneg |].
  rewrite le_value_le_bytes. change (8 * Z.of_nat 4) with 32.
  change (SERIALIZED_ENGINE_MAGIC mod 2 ^ 32 =? SERIALIZED_ENGINE_MAGIC) with true.
  cbn [negb]. cbn [version_value].
  rewrite (proj2 (Z.ltb_ge _ _)) by lia. reflexivity.
Qed.

(** X18. Header round trip.  A header with fields in range, written at the
    end of a buffer, reads back field for field from a cursor at the place
    where it was written, whatever follows it; the read moves the cursor
    by exactly twelve bytes. *)
Theorem header_round_trip (hd : SerializedEngineHeader) (pre : OutputBlob) (rest : list byte) :
  0 <= m_magic hd < 2 ^ 32 ->
  - 2 ^ 31 <= m_version hd < 2 ^ 31 ->
  0 <= m_reserved hd < 2 ^ 32 ->
  read_header {| ib_data := write_header hd pre ++ rest; ib_pos := length pre |}
  = (hd, {| ib_data := write_header hd pre ++ rest; ib_pos := (length pre + 12)%nat |}).
Proof.
  intros Hm Hv Hr.
  rewrite (surjective_pairing (read_header _)). f_equal.
  - unfold write_header, OutputBlob_write, header_bytes.
    rewrite <- !app_assoc.
    rewrite (read_header_at pre _ _ _ rest
               (length_le_bytes 4 _) (length_le_bytes 4 _) (length_le_bytes 4 _)).
    rewrite !le_value_le_bytes. change (8 * Z.of_nat 4) with 32.
    rewrite to_int32_of_pattern, !Z.mod_small by lia.
    destruct hd; reflexivity.
  - apply read_header_cursor_fits. cbn [ib_data ib_pos].
    unfold write_header, OutputBlob_write.
    rewrite !length_app, length_header_bytes. lia.
Qed.

Lemma fold_left_reads (Hreads : reads_what_it_wrote codec) (data : list byte) :
  forall objs pos,
    (pos + length (flat_map serialized_form objs) <= length data)%nat ->
    fold_left (fun s o => deserialize_from o s) objs {| ib_data := data; ib_pos := pos |}
    = {| ib_data := data;
         ib_pos := (pos + length (flat_map serialized_form objs))%nat |}.
Proof.
  induction objs as [|o objs IH]; intros pos Hfit.
  - cbn. rewrite Nat.add_0_r. reflexivity.
  - cbn [fold_left flat_map] in *. rewrite length_app in Hfit.
    rewrite Hreads by (cbn [ib_pos ib_data]; lia).
    cbn [ib_data ib_pos]. rewrite IH by lia.
    rewrite length_app, Nat.add_assoc. reflexivity.
Qed.

(** X19. Save and reload line up.  When every collaborator reads back
    exactly the bytes it wrote, deserialize() on the stream that
    serialize() wrote into an empty buffer, on the same universe, returns
    success, visits the collaborators in the order in which they were
    written, and stops with the cursor at the very end of the stream. *)
Theorem serialize_deserialize_aligned (e : EngineImpl) (u h : addr) :
  reads_what_it_wrote codec ->
  m_universe e = Some u -> m_hierarchy e = Some h ->
  exists crc out final objects,
    serialize [] e = Ok (crc, out) e (map EvSerialize objects) /\
    deserialize {| ib_data := out; ib_pos := 0 |} e
    = Ok (true, final) e (map EvDeserialize objects) /\
    ib_data final = out /\
    ib_pos final = length out.
Proof.
  intros Hreads Hu Hh.
  exists (crc32 (flat_map serialized_form (stream_objects e u h))).
  exists ([] ++ header_bytes latest_header ++ serialized_form ObjPathManager
             ++ flat_map serialized_form (stream_objects e u h)).
  eexists. exists (ObjPathManager :: stream_objects e u h).
  split; [apply (serialize_spec [] e u h Hu Hh) |].
  cbn [app].
  rewrite deserialize_spec. cbv zeta.
  rewrite read_header_of_written
    by (unfold latest_header, SERIALIZED_ENGINE_MAGIC;
        cbn [m_magic m_version m_reserved version_value]; lia).
  change (negb (m_magic latest_header =? SERIALIZED_ENGINE_MAGIC)) with false.
  change (version_value LATEST <? m_version latest_header) with false.
  cbn iota. rewrite Hu, Hh.
  rewrite read_header_cursor_fits
    by (cbn [ib_data ib_pos]; rewrite length_app, length_header_bytes; lia).
  cbn [ib_data ib_pos].
  rewrite (fold_left_reads Hreads).
  - split; [reflexivity |]. split; [reflexivity |].
    cbn [ib_pos flat_map]. rewrite !length_app, length_header_bytes. lia.
  - cbn [flat_map]. rewrite !length_app, length_header_bytes. lia.
Qed.

(** X20. The checksum covers the engine's own section of the stream only:
    what serialize() returns does not depend on what the buffer held
    before the call. *)
Theorem serialize_checksum_ignores_prefix (b1 b2 : OutputBlob) (e : EngineImpl) :
  is_some (m_universe e) = true -> is_some (m_hierarchy e) = true ->
  exists crc out1 out2 calls,
    serialize b1 e = Ok (crc, out1) e calls /\
    serialize b2 e = Ok (crc, out2) e calls /\
    skipn (length b1) out1 = skipn (length b2) out2.
Proof.
  intros Hu Hh.
  destruct (m_universe e) as [u|] eqn:Eu; [| discriminate].
  destruct (m_hierarchy e) as [h|] eqn:Eh; [| discriminate].
  eexists _, _, _, _.
  split; [apply (serialize_spec b1 e u h Eu Eh) |].
  split; [apply (serialize_spec b2 e u h Eu Eh) |].
  rewrite !skipn_app, !skipn_all, !Nat.sub_diag. reflexivity.
Qed.

End CodecProperties.

Lemma sample_codec_reads_what_it_wrote : reads_what_it_wrote sample_codec.
Proof.
  intros o b Hfit. cbn [deserialize_from serialized_form sample_codec] in *.
  unfold InputBlob_read. rewrite (proj2 (Nat.leb_le _ _) Hfit). reflexivity.
Qed.

Lemma serialization_needs_a_universe_witness :
  serialize (codec := sample_codec) [] fresh_engine = Crash NullDereference /\
  deserialize (codec := sample_codec)
    {| ib_data := sample_stream; ib_pos := 0 |} fresh_engine = Crash NullDereference.
Proof.
  destruct (serialization_needs_a_universe (codec := sample_codec)
              [] {| ib_data := sample_stream; ib_pos := 0 |} fresh_engine
              (or_introl eq_refl)) as [Hser Hdes].
  split; [exact Hser |]. apply Hdes; [reflexivity | vm_compute; discriminate].
Defined.

Lemma deserialize_unsupported_version_witness :
  exists after,
    deserialize (codec := sample_codec)
      {| ib_data := le_bytes 4 SERIALIZED_ENGINE_MAGIC ++ le_bytes 4 2 ++ le_bytes 4 0;
         ib_pos := 0 |} active_engine
    = Ok (false, after) active_engine [EvLogError "engine" "Unsupported version"] /\
    ib_data after
    = le_bytes 4 SERIALIZED_ENGINE_MAGIC ++ le_bytes 4 2 ++ le_bytes 4 0 /\
    (ib_pos after <= 12)%nat.
Proof.
  apply (deserialize_unsupported_version (codec := sample_codec)
           {| ib_data := le_bytes 4 SERIALIZED_ENGINE_MAGIC ++ le_bytes 4 2 ++ le_bytes 4 0;
              ib_pos := 0 |} active_engine).
  - reflexivity.
  - vm_compute. reflexivity.
Defined.

Lemma deserialize_reads_version_as_signed_witness :
  m_version (fst (read_header
      {| ib_data := [] ++ le_bytes 4 SERIALIZED_ENGINE_MAGIC ++ [xff; xff; xff; xff]
                    ++ [x00; x00; x00; x00] ++ skipn 12%nat sample_stream;
         ib_pos := 0 |})) < 0 /\
  verdict (deserialize (codec := sample_codec)
      {| ib_data := [] ++ le_bytes 4 SERIALIZED_ENGINE_MAGIC ++ [xff; xff; xff; xff]
                    ++ [x00; x00; x00; x00] ++ skipn 12%nat sample_stream;
         ib_pos := 0 |} active_engine) = Some true.
Proof.
  apply (deserialize_reads_version_as_signed (codec := sample_codec)
           [] [xff; xff; xff; xff] [x00; x00; x00; x00] (skipn 12%nat sample_stream)
           active_engine); try reflexivity.
  vm_compute. discriminate.
Defined.

Lemma header_round_trip_witness :
  read_header {| ib_data := write_header latest_header [] ++ []; ib_pos := 0 |}
  = (latest_header,
     {| ib_data := write_header latest_header [] ++ []; ib_pos := 12 |}).
Proof.
  apply (header_round_trip latest_header [] []);
    split; vm_compute; first [reflexivity | discriminate].
Defined.

Lemma serialize_deserialize_aligned_witness :
  exists crc out final objects,
    serialize (codec := sample_codec) [] active_engine
    = Ok (crc, out) active_engine (map EvSerialize objects) /\
    deserialize (codec := sample_codec) {| ib_data := out; ib_pos := 0 |} active_engine
    = Ok (true, final) active_engine (map EvDeserialize objects) /\
    ib_data final = out /\
    ib_pos final = length out.
Proof.
  apply (serialize_deserialize_aligned (codec := sample_codec) active_engine
           1000%positive 1001%positive).
  - exact sample_codec_reads_what_it_wrote.
  - reflexivity.
  - reflexivity.
Defined.

Lemma serialize_checksum_ignores_prefix_witness :
  exists crc out1 out2 calls,
    serialize (codec := sample_codec) [] active_engine
    = Ok (crc, out1) active_engine calls /\
    serialize (codec := sample_codec) [x01; x02; x03] active_engine
    = Ok (crc, out2) active_engine calls /\
    skipn (length (@nil byte)) out1 = skipn (length [x01; x02; x03]) out2.
Proof.
  apply (serialize_checksum_ignores_prefix (codec := sample_codec)
           [] [x01; x02; x03] active_engine); reflexivity.
Defined.

(** ** Construction and teardown *)

Ltac split_events H :=
  repeat (destruct H as [H | H]; [try discriminate H |]); try contradiction.

Lemma Engine_create_full_failure
    (base_path : string) (fs : option addr) (allocator : IAllocator)
    (plugin_manager : option PluginManager) (renderer : option IPlugin)
    (renderer_create input_system_create : bool)
    (timer fps_timer : Timer) (last_time_delta : float)
    (result : option (EngineImpl * EngineShell)) (events : list SetupEvent) :
  Engine_create_full base_path fs allocator plugin_manager renderer
    renderer_create input_system_create timer fps_timer last_time_delta
  = (result, events) ->
  result = None ->
  exists front,
    events = front ++ EngineImpl_destructor (is_some plugin_manager)
                        (fst (fst (EngineImpl_constructor base_path fs allocator))).
Proof.
  unfold Engine_create_full.
  destruct (EngineImpl_constructor base_path fs allocator) as [[shell alloc] built].
  destruct (EngineImpl_create plugin_manager renderer renderer_create
              input_system_create) as [ok created] eqn:Hcreate.
  destruct ok.
  - destruct plugin_manager, renderer, renderer_create, input_system_create;
      try discriminate Hcreate; cbn; intros H Hn; subst result; congruence.
  - intros H _. injection H as _ <-.
    exists ([SuInstallUnhandledExceptionHandler base_path;
             SuBindLogCallback "info"; SuBindLogCallback "warning";
             SuBindLogCallback "error"] ++ built ++ created).
    reflexivity.
Qed.

(** X21. Engine::create hands out an engine exactly when the plugin
    manager and the renderer instance exist and the renderer's and the
    input system's own create steps succeed.  The engine handed out is
    well-formed, has no universe and an fps of 0, caches the renderer and
    has it registered as the last plugin.  In every other case nothing is
    handed out and the engine's destructor has run as the last thing.  The
    renderer instance is destroyed by create() exactly when it exists and
    its own create step failed, and it is registered with the plugin
    manager exactly when that step succeeded. *)
Theorem Engine_create_full_outcome
    (base_path : string) (fs : option addr) (allocator : IAllocator)
    (plugin_manager : option PluginManager) (renderer : option IPlugin)
    (renderer_create input_system_create : bool)
    (timer fps_timer : Timer) (last_time_delta : float)
    (result : option (EngineImpl * EngineShell)) (events : list SetupEvent) :
  Engine_create_full base_path fs allocator plugin_manager renderer
    renderer_create input_system_create timer fps_timer last_time_delta
  = (result, events) ->
  (is_some result
   = is_some plugin_manager && is_some renderer
     && renderer_create && input_system_create) /\
  (forall core shell, result = Some (core, shell) ->
     well_formed core /\ NoUniverse core /\ getFPS core = Float32.of_int 0 /\
     exists m r, plugin_manager = Some m /\ renderer = Some r /\
                 m_renderer core = plugin_addr r /\
                 getPlugins (m_plugin_manager core) = getPlugins m ++ [r]) /\
  (result = None ->
     exists front,
       events = front ++ EngineImpl_destructor (is_some plugin_manager)
                           (fst (fst (EngineImpl_constructor base_path fs allocator)))) /\
  (forall a, In (SuRendererDestroyInstance a) events <->
             exists m r, plugin_manager = Some m /\ renderer = Some r /\
                         plugin_addr r = a /\ renderer_create = false) /\
  (forall a, In (SuAddPlugin a) events <->
             exists m r, plugin_manager = Some m /\ renderer = Some r /\
                         plugin_addr r = a /\ renderer_create = true).
Proof.
  intros Hrun.
  split; [| split; [| split; [exact (Engine_create_full_failure _ _ _ _ _ _ _ _ _ _ _ _ Hrun) |]]].
  - destruct fs, plugin_manager, renderer, renderer_create, input_system_create;
      cbn in Hrun; inversion Hrun; reflexivity.
  - destruct fs as [f|], plugin_manager as [m|], renderer as [r|],
      renderer_create, input_system_create;
      cbn in Hrun; inversion Hrun; subst; clear Hrun;
      intros core shell Hc; try discriminate Hc; inversion Hc; subst;
      (split; [split; [reflexivity |]; split; [reflexivity |];
               split; [cbn; lia | intros s []] |]);
      (split; [repeat split |]);
      (split; [reflexivity |]);
      exists m, r; repeat split.
  - destruct fs as [f|], plugin_manager as [m|], renderer as [r|],
      renderer_create, input_system_create;
      cbn in Hrun; inversion Hrun; subst; clear Hrun;
      (split; intros a; (split; [intros Hin; cbn in Hin; split_events Hin;
                                 try (inversion Hin; subst; exists m, r; repeat split)
                                | intros (m' & r' & Hm & Hr & Ha & Hc);
                                  try discriminate Hm; try discriminate Hr;
                                  try discriminate Hc;
                                  inversion Hr; subst; cbn; tauto])).
Qed.

Lemma Engine_create_full_outcome_witness :
  is_some (fst (Engine_create_full "." None {| next_free := 1000%positive |}
                  (Some {| getPlugins := [] |}) (Some renderer_plugin) true false
                  steady_timer steady_timer (Float32.of_int 0))) = false /\
  In (SuAddPlugin 1%positive) (snd (Engine_create_full "." None {| next_free := 1000%positive |}
                  (Some {| getPlugins := [] |}) (Some renderer_plugin) true false
                  steady_timer steady_timer (Float32.of_int 0))).
Proof.
  destruct (Engine_create_full_outcome "." None {| next_free := 1000%positive |}
              (Some {| getPlugins := [] |}) (Some renderer_plugin) true false
              steady_timer steady_timer (Float32.of_int 0) _ _ eq_refl)
    as (Hsome & _ & _ & _ & Hadd).
  split; [exact Hsome |].
  apply Hadd. exists {| getPlugins := [] |}, renderer_plugin. repeat split.
Defined.

(** X22. The engine owns a file system exactly when none was injected.
    Over an engine's whole life (its creation and, if one was handed out,
    its destruction; also when creation fails half way) the objects
    acquired for the file system are given back, each once and in the order
    file system, memory device, disk device.  With an injected file system
    nothing is acquired, and the engine never mounts a device on it,
    renames its default or save-game device, or destroys it. *)
Theorem file_system_ownership
    (base_path : string) (fs : option addr) (allocator : IAllocator)
    (plugin_manager : option PluginManager) (renderer : option IPlugin)
    (renderer_create input_system_create : bool)
    (timer fps_timer : Timer) (last_time_delta : float) :
  let life := whole_life base_path fs allocator plugin_manager renderer
                renderer_create input_system_create timer fps_timer last_time_delta in
  acquired life = released life /\
  acquired life
  = match fs with
    | Some _ => []
    | None => [next_free allocator;
               Pos.succ (next_free allocator);
               Pos.succ (Pos.succ (next_free allocator))]
    end /\
  (is_some fs = true ->
   forallb (fun ev => negb (touches_file_system ev)) life = true).
Proof.
  cbv zeta. unfold whole_life.
  destruct fs, plugin_manager, renderer, renderer_create, input_system_create;
    cbn; repeat split; intros; try discriminate; reflexivity.
Qed.

Lemma deserialize_accepts_serialized_witness :
  exists crc out calls,
    serialize (codec := sample_codec) [] active_engine
    = Ok (crc, out) active_engine calls /\
    verdict (deserialize (codec := sample_codec)
               {| ib_data := out; ib_pos := 0 |} active_engine) = Some true.
Proof.
  apply (deserialize_accepts_serialized (codec := sample_codec)
           active_engine active_engine 1000%positive 1001%positive);
    reflexivity.
Defined.

(** ** The renderer's scene in a paused frame *)

Lemma filter_scenes_of (r u : addr) : forall plugins,
  scenes_name_their_creator plugins ->
  filter (fun s => Pos.eqb (getPlugin s) r) (scenes_of plugins u)
  = scenes_of (filter (fun p => Pos.eqb (plugin_addr p) r) plugins) u.
Proof.
  unfold scenes_of.
  induction plugins as [|p plugins IH]; intros Hown; [reflexivity |].
  assert (Hrest : scenes_name_their_creator plugins).
  { intros q v s Hq. apply Hown. right. exact Hq. }
  cbn [flat_map filter]. rewrite filter_app, (IH Hrest).
  destruct (createScene p u) as [s|] eqn:Hs.
  - cbn [filter]. rewrite (Hown p u s (or_introl eq_refl) Hs).
    destruct (Pos.eqb (plugin_addr p) r); cbn [flat_map app]; [rewrite Hs |]; reflexivity.
  - destruct (Pos.eqb (plugin_addr p) r); cbn [flat_map filter app]; [rewrite Hs |];
      reflexivity.
Qed.

(** X24. After createUniverse(), an update() with the game not running
    hands its delta to exactly the scenes that the plugins at the cached
    renderer's address created, in registration order, and then drains the
    file system: the scenes of all other plugins are frozen.  (Scenes are
    taken to name their creator, as in C2.) *)
Theorem paused_update_after_createUniverse (m d : float) (e : EngineImpl) :
  NoUniverse e ->
  scenes_name_their_creator (getPlugins (m_plugin_manager e)) ->
  exists u e1 c1 e2,
    createUniverse e = Ok u e1 c1 /\
    update false m d e1
    = Ok tt e2
        (map (fun s => EvSceneUpdate s (getLastTimeDelta e2))
             (scenes_of (filter (fun p => Pos.eqb (plugin_addr p) (m_renderer e))
                                (getPlugins (m_plugin_manager e))) u)
         ++ [EvUpdateAsyncTransactions]).
Proof.
  intros (_ & _ & Hs) Hown.
  pose proof (createUniverse_spec e) as Hc. cbv zeta in Hc.
  match type of Hc with _ = Ok ?u ?x ?c => set (e1 := x) in * end.
  destruct (update_shape false m d e1) as (dt & e2 & Hu & Hdt & _).
  eexists _, e1, _, e2. split; [exact Hc |].
  rewrite Hu. unfold dispatched, owned_by_renderer, getLastTimeDelta. rewrite Hdt.
  change (m_renderer e1) with (m_renderer e).
  change (m_scenes e1)
    with (m_scenes e ++ scenes_of (getPlugins (m_plugin_manager e))
                          (next_free (m_allocator e))).
  rewrite Hs. cbn [app]. rewrite (filter_scenes_of _ _ _ Hown). reflexivity.
Qed.

Lemma paused_update_after_createUniverse_witness :
  exists u e1 c1 e2,
    createUniverse fresh_engine = Ok u e1 c1 /\
    update false (Float32.of_int 1) (Float32.of_int (-1)) e1
    = Ok tt e2 [EvSceneUpdate scene_of_renderer (getLastTimeDelta e2);
                EvUpdateAsyncTransactions].
Proof.
  apply (paused_update_after_createUniverse (Float32.of_int 1) (Float32.of_int (-1))
           fresh_engine).
  - repeat split.
  - exact sample_scenes_name_their_creator.
Defined.
